(** * Chat-prompt assembly of [modules/chat.py], embedded and verified

    The development follows the prompt-building path of [modules/chat.py]:
    [get_generation_prompt] (the boundary prober), [generate_chat_prompt]
    with its inner [remove_extra_bos] and [make_prompt] and its truncation
    loop, and [get_stopping_strings].

    Python [str] values are lists of characters, exceptions are the [Error]
    side of [result], and the collaborators that live outside the module
    (the Jinja environment, [apply_extensions], [get_encoded_length],
    [get_max_prompt_length]) are section variables. *)

From Stdlib Require Import ZArith Ascii String.
From stdpp Require Import base tactics option list relations countable strings gmap.

Local Open Scope Z_scope.
Local Open Scope nat_scope.

(** ** Python values and exceptions *)

Definition str := list ascii.

Definition py (s : string) : str := list_ascii_of_string s.

Inductive exn :=
  | IndexError
  | ValueError
  | TemplateError.

Inductive result (A : Type) :=
  | Ok (a : A)
  | Error (e : exn).
Arguments Ok {A} a.
Arguments Error {A} e.

#[global] Instance result_ret : MRet result := @Ok.
#[global] Instance result_bind : MBind result := fun A B f r =>
  match r with
  | Ok a => f a
  | Error e => Error e
  end.

#[global] Instance exn_eq_dec : EqDecision exn.
Proof. solve_decision. Defined.

(** ** The [str] and [list] methods the module calls *)

Module Py.

(** [s.startswith(p)] *)
Fixpoint startswith (s p : str) : bool :=
  match p, s with
  | [], _ => true
  | _ :: _, [] => false
  | c :: p', d :: s' => if decide (c = d) then startswith s' p' else false
  end.

(** [s.find(sep)]: the lowest index where [sep] occurs, [None] for -1. *)
Fixpoint find (sep s : str) : option nat :=
  if startswith s sep then Some 0
  else match s with
       | [] => None
       | _ :: s' => S <$> find sep s'
       end.

(** The scan of [s.split(sep)] for a non-empty [sep]; [n] bounds the number
    of separators still to be found, and [length s] is always enough. *)
Fixpoint split_scan (n : nat) (sep s : str) : list str :=
  match n with
  | 0 => [s]
  | S n' =>
      match find sep s with
      | None => [s]
      | Some i => take i s :: split_scan n' sep (drop (i + length sep) s)
      end
  end.

(** [s.split(sep)]; an empty separator raises [ValueError]. *)
Definition split (sep s : str) : result (list str) :=
  match sep with
  | [] => Error ValueError
  | _ :: _ => Ok (split_scan (length s) sep s)
  end.

(** The scan of [s.replace(old, new)] for a non-empty [old]. *)
Fixpoint replace_scan (n : nat) (old new s : str) : str :=
  match n with
  | 0 => s
  | S n' =>
      match find old s with
      | None => s
      | Some i => take i s ++ new ++ replace_scan n' old new (drop (i + length old) s)
      end
  end.

(** [s.replace(old, new)]; an empty [old] matches before every character
    and at the end. *)
Definition replace (old new s : str) : str :=
  match old with
  | [] => new ++ concat (map (fun c => c :: new) s)
  | _ :: _ => replace_scan (length s) old new s
  end.

(** [str.isspace] on one character (code points below 256). *)
Definition isspace (c : ascii) : bool :=
  let n := nat_of_ascii c in
  ((9 <=? n) && (n <=? 13)) || ((28 <=? n) && (n <=? 32))
  || (n =? 133) || (n =? 160).

Fixpoint lstrip_by (f : ascii -> bool) (s : str) : str :=
  match s with
  | [] => []
  | c :: s' => if f c then lstrip_by f s' else s
  end.

Definition rstrip_by (f : ascii -> bool) (s : str) : str :=
  rev (lstrip_by f (rev s)).

(** [s.strip()] *)
Definition strip (s : str) : str := rstrip_by isspace (lstrip_by isspace s).

(** [s.rstrip(chars)] *)
Definition rstrip (chars s : str) : str :=
  rstrip_by (fun c => bool_decide (c ∈ chars)) s.

(** A slice bound [i] of a sequence of length [n], clamped as Python does. *)
Definition bound (i : Z) (n : nat) : nat :=
  if (i <? 0)%Z then Z.to_nat (Z.max 0 (Z.of_nat n + i)) else Z.to_nat i.

(** [l[:stop]] *)
Definition slice_to {A} (stop : Z) (l : list A) : list A :=
  take (bound stop (length l)) l.

(** [l[start:]] *)
Definition slice_from {A} (start : Z) (l : list A) : list A :=
  drop (bound start (length l)) l.

(** [l[i]], raising [IndexError] out of range. *)
Definition getitem {A} (l : list A) (i : Z) : result A :=
  let j := if (i <? 0)%Z then (Z.of_nat (length l) + i)%Z else i in
  if (j <? 0)%Z then Error IndexError
  else match l !! Z.to_nat j with
       | Some x => Ok x
       | None => Error IndexError
       end.

(** [l.insert(i, x)] for a non-negative [i]. *)
Definition insert {A} (i : nat) (x : A) (l : list A) : list A :=
  take i l ++ x :: drop i l.

(** [l.pop(i)] for a non-negative [i], keeping the list that remains. *)
Definition pop {A} (i : nat) (l : list A) : result (list A) :=
  if decide (i < length l) then Ok (delete i l) else Error IndexError.

(** [-len(s)] and [len(s)] as Python integers. *)
Definition len {A} (l : list A) : Z := Z.of_nat (length l).

(** [sep in s] *)
Definition contains (sep s : str) : bool := bool_decide (is_Some (find sep s)).

(** The number of positions of [s] at which [sep] starts. *)
Fixpoint occurrences (sep s : str) : nat :=
  (if startswith s sep then 1 else 0) +
  match s with
  | [] => 0
  | _ :: s' => occurrences sep s'
  end.

End Py.

(** ** Messages, templates and the conversation state *)

Inductive Role := system | user | assistant.

#[global] Instance Role_eq_dec : EqDecision Role.
Proof. solve_decision. Defined.

Record message := Message { role : Role; content : str }.

#[global] Instance message_eq_dec : EqDecision message.
Proof. solve_decision. Defined.

(** The keyword arguments of [template.render]; a keyword that the call
    leaves out is [None]. *)
Record render_kwargs := RenderKwargs {
  kw_messages : list message;
  kw_add_generation_prompt : option bool;
  kw_name1 : option str;
  kw_name2 : option str
}.

(** A compiled Jinja template, seen through its [render] method. *)
Definition template := render_kwargs -> result str.

(** What [partial(template.render, ...)] leaves open. *)
Definition renderer := list message -> result str.

Inductive Mode := chat | instruct | chat_instruct.

#[global] Instance Mode_eq_dec : EqDecision Mode.
Proof. solve_decision. Defined.

Record History := mkHistory {
  internal : list (str * str);
  visible : list (str * str)
}.

(** The value under [state['stopping_strings']] when the key is present. *)
Inductive stop_value :=
  | StopList (l : list str)
  | StopOther.

Record State := mkState {
  mode : Mode;
  name1 : str;
  name2 : str;
  context : str;
  custom_system_message : str;
  chat_template_str : str;
  instruction_template_str : str;
  chat_instruct_command : str;
  history : History;
  stopping_strings : option stop_value
}.

(** The keyword arguments of [generate_chat_prompt]. *)
Record Kwargs := mkKwargs {
  impersonate : bool;
  _continue : bool;
  also_return_rows : bool;
  kw_history : option History
}.

Definition SENTINEL_1 : str := py "<<|user-message-1|>>".
Definition SENTINEL_2 : str := py "<<|user-message-2|>>".

(** ** [get_generation_prompt] *)

(** The two sentinel messages of the probe. *)
Definition probe_messages (impersonate : bool) : list message :=
  if impersonate then
    [Message user SENTINEL_1; Message user SENTINEL_2]
  else
    [Message assistant SENTINEL_1; Message assistant SENTINEL_2].

Definition get_generation_prompt (render : renderer)
    (impersonate strip_trailing_spaces : bool) : result (str * str) :=
  let messages := probe_messages impersonate in
  prompt ← render messages;
  after_first ← Py.split SENTINEL_1 prompt ≫= (fun l => Py.getitem l 1%Z);
  suffix_plus_prefix ← Py.split SENTINEL_2 after_first ≫= (fun l => Py.getitem l 0%Z);
  suffix ← Py.split SENTINEL_2 prompt ≫= (fun l => Py.getitem l 1%Z);
  let prefix := Py.slice_from (Py.len suffix) suffix_plus_prefix in
  let prefix := if strip_trailing_spaces then Py.rstrip (py " ") prefix else prefix in
  Ok (prefix, suffix).

(** ** [remove_extra_bos] *)

Definition bos_tokens : list str := [py "<s>"; py "<|startoftext|>"].

(** [while prompt.startswith(bos_token): prompt = prompt[len(bos_token):]];
    [n] bounds the iterations and [length prompt] is always enough. *)
Fixpoint strip_leading (n : nat) (bos_token prompt : str) : str :=
  match n with
  | 0 => prompt
  | S n' =>
      if Py.startswith prompt bos_token
      then strip_leading n' bos_token (Py.slice_from (Py.len bos_token) prompt)
      else prompt
  end.

Definition remove_extra_bos (prompt : str) : str :=
  fold_left (fun prompt bos_token => strip_leading (length prompt) bos_token prompt)
            bos_tokens prompt.

(** ** The collaborators outside the module and what is built on them *)

Inductive output :=
  | Prompt (prompt : str)
  | PromptRows (prompt : str) (rows : list str).

Definition BEGIN_VISIBLE_CHAT : str := py "<|BEGIN-VISIBLE-CHAT|>".

Definition replace_character_names (text name1 name2 : str) : str :=
  let text := Py.replace (py "{{char}}") name2 (Py.replace (py "{{user}}") name1 text) in
  Py.replace (py "<BOT>") name2 (Py.replace (py "<USER>") name1 text).

(** The first part of [generate_chat_prompt]: the message list before any
    truncation (lines 90 to 115). *)
Definition build_messages (user_input : str) (state : State) (kwargs : Kwargs)
    : list message :=
  let history := internal (default (history state) (kw_history kwargs)) in
  let messages :=
    if decide (mode state = instruct) then
      if decide (Py.strip (custom_system_message state) ≠ [])
      then [Message system (custom_system_message state)] else []
    else
      if decide (Py.strip (context state) ≠ [])
      then [Message system
              (replace_character_names (context state) (name1 state) (name2 state))]
      else [] in
  let insert_pos := length messages in
  let messages :=
    fold_left (fun messages turn =>
      let user_msg := Py.strip turn.1 in
      let assistant_msg := Py.strip turn.2 in
      let messages :=
        if decide (assistant_msg ≠ [])
        then Py.insert insert_pos (Message assistant assistant_msg) messages
        else messages in
      if decide (user_msg ∉ [[]; BEGIN_VISIBLE_CHAT])
      then Py.insert insert_pos (Message user user_msg) messages
      else messages)
      (reverse history) messages in
  let user_input := Py.strip user_input in
  if bool_decide (user_input ≠ []) && negb (impersonate kwargs) && negb (_continue kwargs)
  then messages ++ [Message user user_input]
  else messages.

(** ** The truncation loop, over any composing and length function *)

Section Truncation.

Variable compose : list message -> result str.
Variable encoded_length : str -> Z.
Variable max_length : Z.

(** [len(messages) > 0 and get_encoded_length(prompt) > max_length] *)
Definition over_budget (messages : list message) (prompt : str) : bool :=
  (0 <? length messages) && (max_length <? encoded_length prompt)%Z.

(** [len(messages) > 1 and messages[0]['role'] == 'system'] *)
Definition saves_system (messages : list message) : bool :=
  (1 <? length messages) && bool_decide (role <$> head messages = Some system).

(** The body of the loop: one [pop], then [make_prompt] again. *)
Definition truncation_step (messages : list message)
    : result (list message * str) :=
  messages ← (if saves_system messages then Py.pop 1 messages else Py.pop 0 messages);
  prompt ← compose messages;
  Ok (messages, prompt).

(** The [while] loop; [None] when [fuel] iterations were not enough. *)
Fixpoint truncation_loop (fuel : nat) (messages : list message) (prompt : str)
    : option (result (str * list message)) :=
  if over_budget messages prompt then
    match fuel with
    | 0 => None
    | S fuel' =>
        match truncation_step messages with
        | Error e => Some (Error e)
        | Ok (messages', prompt') => truncation_loop fuel' messages' prompt'
        end
    end
  else Some (Ok (prompt, messages)).

(** One iteration seen as a transition between loop states. *)
Definition loop_step (s s' : list message * str) : Prop :=
  over_budget s.1 s.2 = true ∧ truncation_step s.1 = Ok s'.

End Truncation.

Section Collaborators.

(** [jinja_env.from_string] *)
Variable from_string : str -> result template.
(** [apply_extensions('bot_prefix', prefix, state)] *)
Variable apply_extensions_bot_prefix : str -> State -> str.
(** [get_encoded_length] and [get_max_prompt_length] of
    [modules.text_generation] *)
Variable get_encoded_length : str -> Z.
Variable get_max_prompt_length : State -> Z.

(** The inner [make_prompt]; the variables it closes over are arguments. *)
Definition make_prompt (state : State) (impersonate _continue : bool)
    (render : renderer) (instruction_template : template)
    (instruct_renderer : renderer) (messages : list message) : result str :=
  prompt ← (if bool_decide (mode state = chat_instruct) && _continue
            then render (Py.slice_to (-1) messages)
            else render messages);
  prompt ←
    (if decide (mode state = chat_instruct) then
       let outer_messages :=
         if decide (Py.strip (custom_system_message state) ≠ [])
         then [Message system (custom_system_message state)] else [] in
       let prompt := remove_extra_bos prompt in
       let command := chat_instruct_command state in
       let command :=
         Py.replace (py "<|character|>")
           (if negb impersonate then name2 state else name1 state) command in
       let command := Py.replace (py "<|prompt|>") prompt command in
       prefix ←
         (if _continue then
            probe ← get_generation_prompt render impersonate false;
            last ← Py.getitem messages (-1);
            Ok (probe.1 ++ content last)
          else
            probe ← get_generation_prompt render impersonate true;
            Ok (if negb impersonate
                then apply_extensions_bot_prefix probe.1 state
                else probe.1));
       let outer_messages :=
         outer_messages ++ [Message user command; Message assistant prefix] in
       prompt ← instruction_template (RenderKwargs outer_messages None None None);
       probe ← get_generation_prompt instruct_renderer false true;
       Ok (Py.slice_to (- Py.len probe.2) prompt)
     else if _continue then
       probe ← get_generation_prompt render impersonate true;
       Ok (Py.slice_to (- Py.len probe.2) prompt)
     else
       probe ← get_generation_prompt render impersonate true;
       let prefix :=
         if bool_decide (mode state = chat) && negb impersonate
         then apply_extensions_bot_prefix probe.1 state
         else probe.1 in
       Ok (prompt ++ prefix));
  Ok (remove_extra_bos prompt).

(** [partial(chat_template.render, add_generation_prompt=False,
    name1=state['name1'], name2=state['name2'])] *)
Definition chat_renderer_of (chat_template : template) (state : State) : renderer :=
  fun messages =>
    chat_template (RenderKwargs messages (Some false)
                     (Some (name1 state)) (Some (name2 state))).

(** [partial(instruction_template.render, add_generation_prompt=False)] *)
Definition instruct_renderer_of (instruction_template : template) : renderer :=
  fun messages => instruction_template (RenderKwargs messages (Some false) None None).

Definition generate_chat_prompt (user_input : str) (state : State) (kwargs : Kwargs)
    : option (result output) :=
  match from_string (chat_template_str state) with
  | Error e => Some (Error e)
  | Ok chat_template =>
  match from_string (instruction_template_str state) with
  | Error e => Some (Error e)
  | Ok instruction_template =>
      let chat_renderer := chat_renderer_of chat_template state in
      let instruct_renderer := instruct_renderer_of instruction_template in
      let render :=
        if decide (mode state = instruct) then instruct_renderer else chat_renderer in
      let messages := build_messages user_input state kwargs in
      let make_prompt :=
        make_prompt state (impersonate kwargs) (_continue kwargs)
                    render instruction_template instruct_renderer in
      match make_prompt messages with
      | Error e => Some (Error e)
      | Ok prompt =>
          r ← truncation_loop make_prompt get_encoded_length
                (get_max_prompt_length state) (length messages) messages prompt;
          Some ('(prompt, messages) ← r;
                Ok (if also_return_rows kwargs
                    then PromptRows prompt (content <$> messages)
                    else Prompt prompt))
      end
  end end.

(** The [for renderer in renderers] loop of [get_stopping_strings]. *)
Fixpoint probe_renderers (renderers : list renderer) (stopping : list str)
    : result (list str) :=
  match renderers with
  | [] => Ok stopping
  | render :: renderers =>
      bot ← get_generation_prompt render false true;
      usr ← get_generation_prompt render true true;
      let '(prefix_bot, suffix_bot) := bot in
      let '(prefix_user, suffix_user) := usr in
      probe_renderers renderers
        (stopping ++
         [suffix_user ++ prefix_bot; suffix_user ++ prefix_user;
          suffix_bot ++ prefix_bot; suffix_bot ++ prefix_user])
  end.

(** [get_stopping_strings]; the state comes back because the function pops
    [state['stopping_strings']], and [list(set(...))] is the enumeration of
    a finite set, in an order the caller cannot rely on. *)
Definition get_stopping_strings (state : State) : result (list str * State) :=
  let renderers := [] in
  renderers ←
    (if decide (mode state ∈ [instruct; chat_instruct]) then
       template ← from_string (instruction_template_str state);
       Ok (renderers ++ [instruct_renderer_of template])
     else Ok renderers);
  renderers ←
    (if decide (mode state ∈ [chat; chat_instruct]) then
       template ← from_string (chat_template_str state);
       Ok (renderers ++ [chat_renderer_of template state])
     else Ok renderers);
  stopping ← probe_renderers renderers [];
  let '(stopping, state) :=
    match stopping_strings state with
    | Some (StopList extra) =>
        (stopping ++ extra,
         mkState (mode state) (name1 state) (name2 state) (context state)
                 (custom_system_message state) (chat_template_str state)
                 (instruction_template_str state) (chat_instruct_command state)
                 (history state) None)
    | _ => (stopping, state)
    end in
  Ok (elements (list_to_set stopping : gset str), state).

End Collaborators.

(** ** Notions the statements use *)

(** The role whose boundaries the probe recovers. *)
Definition probed_role (impersonate : bool) : Role :=
  if impersonate then user else assistant.

(** A renderer that writes each message of role [r] as
    [pre ++ content ++ suf] and nothing else. *)
Definition renders_turns (render : renderer) (r : Role) (pre suf : str) : Prop :=
  ∀ ms, Forall (fun m => role m = r) ms →
        render ms = Ok (concat (map (fun m => pre ++ content m ++ suf) ms)).

(** The list after one [pop]: index 1 goes when a system message leads more
    than one message, index 0 otherwise. *)
Definition popped (msgs : list message) : list message :=
  if saves_system msgs then delete 1 msgs else delete 0 msgs.

(** The list that is left of [sys :: rest] after [k] removals that spare the
    system message for as long as another message remains. *)
Definition kept_after (sys : message) (rest : list message) (k : nat) : list message :=
  if decide (k ≤ length rest) then sys :: drop k rest else [].

(** One pass over [text] that replaces every occurrence of [placeholder] by
    [name], the occurrences taken from left to right; [skip] counts the
    characters of a replaced occurrence that are still to be passed over. *)
Fixpoint substitution_pass (placeholder name : str) (skip : nat) (text : str) : str :=
  match text with
  | [] => []
  | c :: rest =>
      match skip with
      | S skip' => substitution_pass placeholder name skip' rest
      | 0 =>
          if decide (placeholder `prefix_of` text)
          then name ++ substitution_pass placeholder name (length placeholder - 1) rest
          else c :: substitution_pass placeholder name 0 rest
      end
  end.

(** The context after four passes, one placeholder per pass: what a name
    brings in is seen by the passes that follow. *)
Definition substituted (name1 name2 text : str) : str :=
  let text := substitution_pass (py "{{user}}") name1 0 text in
  let text := substitution_pass (py "{{char}}") name2 0 text in
  let text := substitution_pass (py "<USER>") name1 0 text in
  substitution_pass (py "<BOT>") name2 0 text.

(** The message list in words: the optional system message, the turns
    oldest first, the optional trailing user message. The system message is
    present when the custom system message (instruct mode) or the context as
    the state holds it (the other modes) is not blank. *)
Definition system_spec (state : State) : list message :=
  match mode state with
  | instruct =>
      if bool_decide (Py.strip (custom_system_message state) ≠ [])
      then [Message system (custom_system_message state)] else []
  | chat | chat_instruct =>
      if bool_decide (Py.strip (context state) ≠ [])
      then [Message system (substituted (name1 state) (name2 state) (context state))]
      else []
  end.

(** The system message as lines 93 to 101 build it, for taking the built
    list apart. *)
Definition system_part (state : State) : list message :=
  match mode state with
  | instruct =>
      if bool_decide (Py.strip (custom_system_message state) ≠ [])
      then [Message system (custom_system_message state)] else []
  | chat | chat_instruct =>
      if bool_decide (Py.strip (context state) ≠ [])
      then [Message system
              (replace_character_names (context state) (name1 state) (name2 state))]
      else []
  end.

Definition turn_messages (turn : str * str) : list message :=
  (if bool_decide (Py.strip turn.1 ≠ [] ∧ Py.strip turn.1 ≠ BEGIN_VISIBLE_CHAT)
   then [Message user (Py.strip turn.1)] else []) ++
  (if bool_decide (Py.strip turn.2 ≠ [])
   then [Message assistant (Py.strip turn.2)] else []).

Definition trailing_part (user_input : str) (kwargs : Kwargs) : list message :=
  if bool_decide (Py.strip user_input ≠ [] ∧ impersonate kwargs = false
                  ∧ _continue kwargs = false)
  then [Message user (Py.strip user_input)] else [].

Definition sequencer_spec (user_input : str) (state : State) (kwargs : Kwargs)
    : list message :=
  system_spec state
  ++ concat (map turn_messages (internal (default (history state) (kw_history kwargs))))
  ++ trailing_part user_input kwargs.

(** The four cross-combinations of the boundaries probed from one renderer
    for both roles. *)
Definition cross_combinations (render : renderer) : result (list str) :=
  bot ← get_generation_prompt render false true;
  usr ← get_generation_prompt render true true;
  Ok [usr.2 ++ bot.1; usr.2 ++ usr.1; bot.2 ++ bot.1; bot.2 ++ usr.1].

(** The renderers active in the mode of a state: the instruction renderer
    for instruct and chat-instruct, the chat renderer for chat and
    chat-instruct. *)
Definition active_renderers (from_string : str -> result template) (state : State)
    : result (list renderer) :=
  match mode state with
  | instruct =>
      t ← from_string (instruction_template_str state);
      Ok [instruct_renderer_of t]
  | chat =>
      t ← from_string (chat_template_str state);
      Ok [chat_renderer_of t state]
  | chat_instruct =>
      ti ← from_string (instruction_template_str state);
      tc ← from_string (chat_template_str state);
      Ok [instruct_renderer_of ti; chat_renderer_of tc state]
  end.

(** The cross-combinations of all the given renderers. *)
Fixpoint all_combinations (renderers : list renderer) : result (list str) :=
  match renderers with
  | [] => Ok []
  | render :: renderers =>
      combos ← cross_combinations render;
      rest ← all_combinations renderers;
      Ok (combos ++ rest)
  end.

(** The stopping strings the caller put into the state. *)
Definition extra_stopping_strings (state : State) : list str :=
  match stopping_strings state with
  | Some (StopList extra) => extra
  | _ => []
  end.

(** [p] is a strict prefix of a beginning-of-text marker, so that text
    appended to it can complete the marker. *)
Definition cut_marker (p : str) : bool :=
  existsb (fun t => Py.startswith t p && negb (bool_decide (p = t))) bos_tokens.

(** ** Sample templates, for closed instances of the theorems *)

(** A template that renders every message as [pre role ++ content ++ suf role]
    after a fixed [head]. *)
Definition turn_template (head : str) (pre suf : Role -> str) : template :=
  fun kw =>
    Ok (head ++ concat (map (fun m => pre (role m) ++ content m ++ suf (role m))
                            (kw_messages kw))).

Definition role_name (r : Role) : str :=
  match r with
  | system => py "system"
  | user => py "user"
  | assistant => py "assistant"
  end.

(** [<|role|>content</s>] per message. *)
Definition tag_template : template :=
  turn_template [] (fun r => py "<|" ++ role_name r ++ py "|>") (fun _ => py "</s>").

(** The same after one leading [<s>]. *)
Definition bos_tag_template : template :=
  turn_template (py "<s>") (fun r => py "<|" ++ role_name r ++ py "|>") (fun _ => py "</s>").

(** [role: content], nothing after the content. *)
Definition open_template : template :=
  turn_template [] (fun r => role_name r ++ py ": ") (fun _ => []).

(** A template that drops every message. *)
Definition blank_template : template := fun _ => Ok (py "hello").

(** A state with the display names [You] and [Bot] and no system text. *)
Definition sample_state (m : Mode) (h : list (str * str)) : State :=
  mkState m (py "You") (py "Bot") [] [] (py "chat") (py "instruct")
          (py "Continue the chat: <|prompt|>") (mkHistory h h) None.

(** A Jinja environment that knows two templates by their source text. *)
Definition sample_from_string (chat_t instruct_t : template) : str -> result template :=
  fun src => if decide (src = py "chat") then Ok chat_t
             else if decide (src = py "instruct") then Ok instruct_t
             else Error TemplateError.

(** [len(prompt)] standing in for the tokenizer. *)
Definition sample_length (prompt : str) : Z := Py.len prompt.

(** A system message and one exchange. *)
Definition sample_messages : list message :=
  [Message system (py "Be brief."); Message user (py "hi");
   Message assistant (py "hello")].

(** * Further code of the repository

    Beyond the prompt path the development embeds the history edits of
    [modules/chat.py] ([remove_last_message] to [send_dummy_reply]), the text
    of a character card ([build_context] and the removal of partial
    duplicates), the generators [chatbot_wrapper], [impersonate_wrapper],
    [generate_chat_reply] and [generate_chat_reply_wrapper], the choice of a
    llama-cpp-python build in [modules/llama_cpp_python_hijack.py], and
    [remove_tts_from_history] of the text-to-speech extension. A generator is
    the list of what it yields together with how it ends; the modules, the
    extensions and the model are parameters. The functions that read or
    write files, and the tensor code, are not embedded. *)

(** ** More [list] and [str] methods *)

Module PyMore.

(** [l.pop()]: the last element and the list that remains. *)
Definition pop_last {A} (l : list A) : result (A * list A) :=
  match last l with
  | Some x => Ok (x, removelast l)
  | None => Error IndexError
  end.

(** [l[-1] = f(l[-1])], as in [l[-1][1] = v] and [l[-1] = v]. *)
Definition update_last {A} (f : A -> A) (l : list A) : result (list A) :=
  match last l with
  | Some x => Ok (removelast l ++ [f x])
  | None => Error IndexError
  end.

(** [l[i] = f(l[i])] for a non-negative [i]. *)
Definition update_at {A} (i : nat) (f : A -> A) (l : list A) : result (list A) :=
  match l !! i with
  | Some x => Ok (<[i := f x]> l)
  | None => Error IndexError
  end.

(** [s.lstrip(chars)] *)
Definition lstrip (chars s : str) : str :=
  Py.lstrip_by (fun c => bool_decide (c ∈ chars)) s.

(** [itertools.combinations(l, 2)] *)
Fixpoint combinations2 {A} (l : list A) : list (A * A) :=
  match l with
  | [] => []
  | x :: t => map (pair x) t ++ combinations2 t
  end.

(** [list(dict.fromkeys(l))]: the first occurrence of every element, in
    order. *)
Definition fromkeys (l : list str) : list str :=
  fold_left (fun keys x => if decide (x ∈ keys) then keys else keys ++ [x]) l [].

(** The line feed. *)
Definition NL : str := ["010"%char].

End PyMore.

(** ** The state as the interface hands it over, and the history edits *)

(** The keys of [state] that the prompt path does not read. *)
Record UIState := mkUIState {
  prompt_state : State;
  greeting : str;
  character_menu : str;
  start_with : str;
  stream : bool;
  chat_style : str
}.

Definition with_history (state : UIState) (h : History) : UIState :=
  let s := prompt_state state in
  mkUIState
    (mkState (mode s) (name1 s) (name2 s) (context s) (custom_system_message s)
       (chat_template_str s) (instruction_template_str s) (chat_instruct_command s)
       h (stopping_strings s))
    (greeting state) (character_menu state) (start_with state) (stream state)
    (chat_style state).

Definition set_reply (reply : str) (turn : str * str) : str * str := (turn.1, reply).

Section HistoryEdits.

(** [html.escape] and [html.unescape] *)
Variable html_escape : str -> str.
Variable html_unescape : str -> str.
(** [apply_extensions('input', text, state, is_chat=True)] *)
Variable apply_extensions_input : str -> UIState -> str.

Definition remove_last_message (history : History) : result (str * History) :=
  removable ←
    (if 0 <? length (visible history) then
       turn ← Py.getitem (internal history) (-1);
       Ok (bool_decide (turn.1 ≠ BEGIN_VISIBLE_CHAT))
     else Ok false);
  if (removable : bool) then
    popped_visible ← PyMore.pop_last (visible history);
    popped_internal ← PyMore.pop_last (internal history);
    Ok (html_unescape popped_visible.1.1,
        mkHistory popped_internal.2 popped_visible.2)
  else
    Ok (html_unescape [], history).

Definition send_last_reply_to_input (history : History) : result str :=
  if 0 <? length (visible history) then
    turn ← Py.getitem (visible history) (-1);
    Ok (html_unescape turn.2)
  else Ok [].

Definition replace_last_reply (text : str) (state : UIState) : result History :=
  let history := history (prompt_state state) in
  if decide (length (Py.strip text) = 0) then Ok history
  else if 0 <? length (visible history) then
    visible' ← PyMore.update_last (set_reply (html_escape text)) (visible history);
    let history := mkHistory (internal history) visible' in
    let reply := apply_extensions_input text (with_history state history) in
    internal' ← PyMore.update_last (set_reply reply) (internal history);
    Ok (mkHistory internal' visible')
  else Ok history.

Definition send_dummy_message (text : str) (state : UIState) : History :=
  let history := history (prompt_state state) in
  let history := mkHistory (internal history)
                   (visible history ++ [(html_escape text, [])]) in
  let sent := apply_extensions_input text (with_history state history) in
  mkHistory (internal history ++ [(sent, [])]) (visible history).

Definition send_dummy_reply (text : str) (state : UIState) : result History :=
  let history := history (prompt_state state) in
  opens_turn ←
    (if 0 <? length (visible history) then
       turn ← Py.getitem (visible history) (-1);
       Ok (negb (bool_decide (turn.2 = [])))
     else Ok false);
  let history :=
    if (opens_turn : bool)
    then mkHistory (internal history ++ [([], [])]) (visible history ++ [([], [])])
    else history in
  visible' ← PyMore.update_last (set_reply (html_escape text)) (visible history);
  let history := mkHistory (internal history) visible' in
  let reply := apply_extensions_input text (with_history state history) in
  internal' ← PyMore.update_last (set_reply reply) (internal history);
  Ok (mkHistory internal' visible').

End HistoryEdits.

(** ** The context of a character card *)

Definition remove_partial_duplicate_strings (string1 string2 : str) : str * str :=
  let string1 := Py.strip string1 in
  let string2 := Py.strip string2 in
  let string2 :=
    if Py.contains string1 string2
    then Py.strip (Py.replace string1 [] string2) else string2 in
  let string1 :=
    if Py.contains string2 string1
    then Py.strip (Py.replace string2 [] string1) else string1 in
  (string1, string2).

(** One pass of the loop over the pairs. *)
Definition add_clean_pair (cleanStringList : list str) (pair : str * str) : list str :=
  let cleanStringPair := remove_partial_duplicate_strings pair.1 pair.2 in
  let cleanStringList :=
    if decide (cleanStringPair.1 ∉ cleanStringList)
    then cleanStringList ++ [cleanStringPair.1] else cleanStringList in
  if decide (cleanStringPair.2 ∉ cleanStringList)
  then cleanStringList ++ [cleanStringPair.2] else cleanStringList.

Definition remove_partial_duplicate_strings_all_pairs (stringList : list str) : list str :=
  if 2 <=? length stringList
  then fold_left add_clean_pair (PyMore.combinations2 stringList) []
  else stringList.

(** [for key in keys: if key in data and data[key] != '': strings.append(data[key].strip())] *)
Definition collect_keys (data : gmap str str) (keys : list str) : list str :=
  fold_left (fun strings key =>
               match data !! key with
               | Some v => if decide (v ≠ []) then strings ++ [Py.strip v] else strings
               | None => strings
               end) keys [].

(** [for string in strings: context += string + "\n"] *)
Definition add_lines (context : str) (strings : list str) : str :=
  fold_left (fun context string => context ++ string ++ PyMore.NL) strings context.

Definition build_context (data : gmap str str) (charName : str) : str :=
  let personaKeys := [py "personality"; py "char_persona"; py "description"] in
  let scenarioKeys := [py "scenario"; py "world_scenario"] in
  let exDialogKeys := [py "mes_example"; py "example_dialogue"] in
  let context := [] in
  let personaStrings := collect_keys data personaKeys in
  let scenarioStrings := collect_keys data scenarioKeys in
  let exDialogStrings := collect_keys data exDialogKeys in
  let context :=
    if decide (personaStrings ≠ []) then
      let personaStrings :=
        remove_partial_duplicate_strings_all_pairs (PyMore.fromkeys personaStrings) in
      add_lines (context ++ charName ++ py "'s Persona: ") personaStrings
    else context in
  let context :=
    if decide (scenarioStrings ≠ []) then
      let scenarioStrings :=
        remove_partial_duplicate_strings_all_pairs (PyMore.fromkeys scenarioStrings) in
      add_lines (context ++ py "Scenario: ") scenarioStrings
    else context in
  let context :=
    if decide (exDialogStrings ≠ []) then
      let exDialogStrings :=
        remove_partial_duplicate_strings_all_pairs (PyMore.fromkeys exDialogStrings) in
      add_lines context exDialogStrings
    else context in
  Py.strip context.

(** ** Further exceptions, and generators *)

Inductive exc :=
  | Builtin (e : exn)
  | KeyError (key : str)
  | UnboundLocalError (name : str)
  | AttributeError (name : str)
  | Exception (message : str).

(** How a call ends; [OutOfFuel] stands for a loop of the model that was
    given too few iterations. *)
Inductive outcome (A : Type) :=
  | Return (a : A)
  | Raise (e : exc)
  | OutOfFuel.
Arguments Return {A} a.
Arguments Raise {A} e.
Arguments OutOfFuel {A}.

#[global] Instance outcome_ret : MRet outcome := @Return.
#[global] Instance outcome_bind : MBind outcome := fun A B f r =>
  match r with
  | Return a => f a
  | Raise e => Raise e
  | OutOfFuel => OutOfFuel
  end.

Definition lift {A} (r : result A) : outcome A :=
  match r with
  | Ok a => Return a
  | Error e => Raise (Builtin e)
  end.

(** A generator that has run to its end: what it yielded, in order, and how
    it ended. A yielded object is recorded as it is at the moment of the
    [yield]. *)
Definition gen (Y A : Type) : Type := list Y * outcome A.

Definition gen_ret {Y A} (a : A) : gen Y A := ([], Return a).

Definition gen_bind {Y A B} (m : gen Y A) (f : A -> gen Y B) : gen Y B :=
  match m.2 with
  | Return a => (m.1 ++ (f a).1, (f a).2)
  | Raise e => (m.1, Raise e)
  | OutOfFuel => (m.1, OutOfFuel)
  end.

Definition yield {Y} (y : Y) : gen Y unit := ([y], Return tt).

Definition gen_of {Y A} (r : outcome A) : gen Y A := ([], r).

Declare Scope gen_scope.
Delimit Scope gen_scope with gen.
Notation "x <~ m ; k" := (gen_bind m (fun x => k))
  (at level 20, m at level 100, k at level 200, only parsing) : gen_scope.
Notation "' p <~ m ; k" := (gen_bind m (fun x => let 'p := x in k))
  (at level 20, p pattern, m at level 100, k at level 200, only parsing) : gen_scope.

(** ** The chat generators *)

Definition with_prompt_state (state : UIState) (s : State) : UIState :=
  mkUIState s (greeting state) (character_menu state) (start_with state)
            (stream state) (chat_style state).

(** Python's truth value of a string. *)
Definition truthy (s : str) : bool := negb (bool_decide (s = [])).

Definition character_is_loaded (state : UIState) (raise_exception : bool)
    : result bool :=
  if bool_decide (mode (prompt_state state) ∈ [chat; chat_instruct])
     && bool_decide (name2 (prompt_state state) = [])
  then if raise_exception then Error ValueError else Ok false
  else Ok true.

(** What the generators take from outside the module: the Jinja environment
    and the token counts of the prompt path, [html], [apply_extensions] at
    each of its hooks, and [shared]. The hooks are read as functions of
    their arguments. *)
Record Env := mkEnv {
  from_string : str -> result template;
  apply_extensions_bot_prefix : str -> State -> str;
  get_encoded_length : str -> Z;
  get_max_prompt_length : State -> Z;
  html_escape : str -> str;
  html_unescape : str -> str;
  (* [apply_extensions] at the hooks [history], [state], [chat_input],
     [input], [output] and [custom_generate_chat_prompt] *)
  apply_extensions_history : History -> History;
  apply_extensions_state : UIState -> UIState;
  apply_extensions_chat_input : str -> str -> UIState -> str * str;
  apply_extensions_input : str -> UIState -> str;
  apply_extensions_output : str -> UIState -> str;
  apply_extensions_custom_prompt : str -> UIState -> Kwargs -> option str;
  (* [shared.processing_message]; whether [shared] holds a model; the
     replies that [generate_reply] yields; [shared.stop_everything] as read
     in iteration [j] *)
  processing_message : str;
  model_loaded : bool;
  generate_reply : str -> UIState -> list str -> bool -> list str;
  stop_everything : nat -> bool;
  (* [re.sub("(<USER>|<user>|{{user}})", name1, reply)] *)
  sub_user : str -> str -> result str;
  chat_html_wrapper : History -> str -> str -> Mode -> str -> str -> str
}.

Section ChatGenerators.
Local Open Scope gen_scope.

Variable env : Env.

(** The prompt that a call of [generate_chat_prompt] without
    [also_return_rows] gives. *)
Definition chat_prompt_of (r : option (result output)) : outcome str :=
  match r with
  | None => OutOfFuel
  | Some (Error e) => Raise (Builtin e)
  | Some (Ok (Prompt prompt)) => Return prompt
  | Some (Ok (PromptRows prompt _)) => Return prompt
  end.

(** The prompt of a call, from the extension or from [generate_chat_prompt]. *)
Definition chat_prompt (text : str) (state : UIState) (kwargs : Kwargs) : outcome str :=
  match apply_extensions_custom_prompt env text state kwargs with
  | Some prompt => Return prompt
  | None =>
      chat_prompt_of
        (generate_chat_prompt (from_string env) (apply_extensions_bot_prefix env)
           (get_encoded_length env) (get_max_prompt_length env)
           text (prompt_state state) kwargs)
  end.

(** The [for j, reply in enumerate(generate_reply(...))] loop of
    [chatbot_wrapper]; the flag tells whether the generator returned from
    inside the loop. *)
Fixpoint reply_loop (state : UIState) (_continue is_stream : bool)
    (text visible_text : str) (last_reply : option (str * str))
    (j : nat) (replies : list str) (output : History) : gen History (History * bool) :=
  match replies with
  | [] => gen_ret (output, false)
  | reply :: replies =>
      visible_reply <~
        gen_of (if decide (mode (prompt_state state) ∈ [chat; chat_instruct])
                then lift (sub_user env (name1 (prompt_state state)) reply)
                else Return reply);
      let visible_reply := html_escape env visible_reply in
      if stop_everything env j then
        turn <~ gen_of (lift (Py.getitem (visible output) (-1)));
        visible' <~
          gen_of (lift (PyMore.update_last
                          (set_reply (apply_extensions_output env turn.2 state))
                          (visible output)));
        let output := mkHistory (internal output) visible' in
        _ <~ yield output;
        gen_ret (output, true)
      else
        output <~
          (if _continue then
             match last_reply with
             | None => gen_of (Raise (UnboundLocalError (py "last_reply")))
             | Some last_reply =>
                 internal' <~
                   gen_of (lift (PyMore.update_last
                                   (fun _ => (text, last_reply.1 ++ reply))
                                   (internal output)));
                 visible' <~
                   gen_of (lift (PyMore.update_last
                                   (fun _ => (visible_text, last_reply.2 ++ visible_reply))
                                   (visible output)));
                 let output := mkHistory internal' visible' in
                 _ <~ (if is_stream then yield output else gen_ret tt);
                 gen_ret output
             end
           else if negb ((j =? 0) && bool_decide (Py.strip visible_reply = [])) then
             internal' <~
               gen_of (lift (PyMore.update_last
                               (fun _ => (text, PyMore.lstrip (py " ") reply))
                               (internal output)));
             visible' <~
               gen_of (lift (PyMore.update_last
                               (fun _ => (visible_text, PyMore.lstrip (py " ") visible_reply))
                               (visible output)));
             let output := mkHistory internal' visible' in
             _ <~ (if is_stream then yield output else gen_ret tt);
             gen_ret output
           else gen_ret output);
        reply_loop state _continue is_stream text visible_text last_reply (S j) replies output
  end.

(** [chatbot_wrapper], up to the check for a model: the input is prepared
    and the loading message yielded. *)
Definition prepare_input (text : str) (state : UIState) (output : History)
    (regenerate _continue loading_message : bool)
    : gen History (str * str * History * option (str * str)) :=
  if negb (regenerate || _continue) then
    let visible_text := html_escape env text in
    let '(text, visible_text) := apply_extensions_chat_input env text visible_text state in
    let text := apply_extensions_input env text state in
    let output := mkHistory (internal output ++ [(text, [])])
                            (visible output ++ [(visible_text, [])]) in
    _ <~ (if loading_message then
            turn <~ gen_of (lift (Py.getitem (visible output) (-1)));
            yield (mkHistory (internal output)
                     (Py.slice_to (-1) (visible output) ++ [(turn.1, processing_message env)]))
          else gen_ret tt);
    gen_ret (text, visible_text, output, None)
  else
    last_internal <~ gen_of (lift (Py.getitem (internal output) (-1)));
    last_visible <~ gen_of (lift (Py.getitem (visible output) (-1)));
    let text := last_internal.1 in
    let visible_text := last_visible.1 in
    if regenerate then
      _ <~ (if loading_message then
              yield (mkHistory
                       (Py.slice_to (-1) (internal output) ++ [(text, [])])
                       (Py.slice_to (-1) (visible output)
                        ++ [(visible_text, processing_message env)]))
            else gen_ret tt);
      gen_ret (text, visible_text, output, None)
    else if _continue then
      last_internal <~ gen_of (lift (Py.getitem (internal output) (-1)));
      last_visible <~ gen_of (lift (Py.getitem (visible output) (-1)));
      let last_reply := (last_internal.2, last_visible.2) in
      _ <~ (if loading_message then
              yield (mkHistory (internal output)
                       (Py.slice_to (-1) (visible output)
                        ++ [(visible_text, last_reply.2 ++ py "...")]))
            else gen_ret tt);
      gen_ret (text, visible_text, output, Some last_reply)
    else gen_ret (text, visible_text, output, None).

Definition chatbot_wrapper (text : str) (state : UIState)
    (regenerate _continue loading_message for_ui : bool) : gen History unit :=
  let history := history (prompt_state state) in
  let output := apply_extensions_history env history in
  let state := apply_extensions_state env state in
  stops <~ gen_of (lift (get_stopping_strings (from_string env) (prompt_state state)));
  let stopping_strings := stops.1 in
  let state := with_prompt_state state stops.2 in
  let is_stream := stream state in
  prepared <~ prepare_input text state output regenerate _continue loading_message;
  let '(text, visible_text, output, last_reply) := prepared in
  _ <~ gen_of (if model_loaded env then Return tt else Raise (Builtin ValueError));
  let kwargs :=
    mkKwargs false _continue false
      (Some (if _continue then output
             else mkHistory (Py.slice_to (-1) (internal output))
                            (Py.slice_to (-1) (visible output)))) in
  prompt <~ gen_of (chat_prompt text state kwargs);
  looped <~ reply_loop state _continue is_stream text visible_text last_reply 0
              (generate_reply env prompt state stopping_strings for_ui) output;
  let '(output, returned) := looped in
  if (returned : bool) then gen_ret tt
  else
    turn <~ gen_of (lift (Py.getitem (visible output) (-1)));
    visible' <~
      gen_of (lift (PyMore.update_last
                      (set_reply (apply_extensions_output env turn.2 state))
                      (visible output)));
    yield (mkHistory (internal output) visible').

Definition generate_chat_reply (text : str) (state : UIState)
    (regenerate _continue loading_message for_ui : bool) : gen History unit :=
  let history := history (prompt_state state) in
  if regenerate || _continue then
    let text := [] in
    greeting_only <~
      (if bool_decide (length (visible history) = 1) then
         turn <~ gen_of (lift (Py.getitem (visible history) 0));
         gen_ret (negb (truthy turn.1))
       else gen_ret false);
    if (greeting_only : bool) || bool_decide (length (internal history) = 0)
    then yield history
    else chatbot_wrapper text state regenerate _continue loading_message for_ui
  else chatbot_wrapper text state regenerate _continue loading_message for_ui.

(** The part of [generate_chat_reply_wrapper] that handles [start_with]:
    the text, the state and the two flags it passes on. *)
Definition start_with_preamble (text : str) (state : UIState)
    (regenerate _continue : bool) : result (str * UIState * bool * bool) :=
  if negb (bool_decide (start_with state = [])) && negb _continue then
    removed ←
      (if regenerate then
         r ← remove_last_message (html_unescape env) (history (prompt_state state));
         Ok (r.1, with_history state r.2, false)
       else Ok (text, state, regenerate));
    let '(text, state, regenerate) := removed in
    let _continue := true in
    let state :=
      with_history state (send_dummy_message (html_escape env) (apply_extensions_input env) text state) in
    h ← send_dummy_reply (html_escape env) (apply_extensions_input env) (start_with state) state;
    Ok (text, with_history state h, regenerate, _continue)
  else Ok (text, state, regenerate, _continue).

Definition generate_chat_reply_wrapper (text : str) (state : UIState)
    (regenerate _continue : bool) : gen (str * History) unit :=
  loaded <~ gen_of (lift (character_is_loaded state false));
  if negb loaded then gen_ret tt
  else
    started <~ gen_of (lift (start_with_preamble text state regenerate _continue));
    let '(text, state, regenerate, _continue) := started in
    let run := generate_chat_reply text state regenerate _continue true true in
    let s := prompt_state state in
    (map (fun history =>
            (chat_html_wrapper env history (name1 s) (name2 s) (mode s)
               (chat_style state) (character_menu state), history)) run.1,
     run.2).

(** The loop of [impersonate_wrapper]. *)
Fixpoint impersonate_loop (text static_output : str) (j : nat) (replies : list str)
    : gen (str * str) unit :=
  match replies with
  | [] => gen_ret tt
  | reply :: replies =>
      _ <~ yield (PyMore.lstrip (py " ") (text ++ reply), static_output);
      if stop_everything env j then gen_ret tt
      else impersonate_loop text static_output (S j) replies
  end.

Definition impersonate_wrapper (text : str) (state : UIState) : gen (str * str) unit :=
  let s := prompt_state state in
  let static_output :=
    chat_html_wrapper env (history s) (name1 s) (name2 s) (mode s)
      (chat_style state) (character_menu state) in
  if negb (model_loaded env) then yield ([], static_output)
  else
    prompt <~ gen_of (chat_prompt_of
                        (generate_chat_prompt (from_string env) (apply_extensions_bot_prefix env)
                           (get_encoded_length env) (get_max_prompt_length env)
                           [] s (mkKwargs true false false None)));
    stops <~ gen_of (lift (get_stopping_strings (from_string env) s));
    let state := with_prompt_state state stops.2 in
    _ <~ yield (text ++ py "...", static_output);
    impersonate_loop text static_output 0
      (generate_reply env (prompt ++ text) state stops.1 false).

End ChatGenerators.

(** ** [modules/llama_cpp_python_hijack.py] *)

Module LlamaCpp.

(** What an attribute of the class [Llama] is bound to: a function of the
    library itself, or one of the two functions the patch installs. *)
Inductive method :=
  | upstream (name : str)
  | eval_with_progress
  | my_generate.

(** The attributes of the class [lib.Llama] that the patch reads and writes,
    each absent or bound; an absent [_is_patched] reads as [False], as
    [getattr] with a default does. *)
Record Llama := mkLlama {
  eval : option method;
  generate : option method;
  original_generate : option method;
  _is_patched : bool
}.

(** [monkey_patch_llama_cpp_python(lib)], on the attribute [Llama] of the
    module, [None] for a module that has none: how the call ends, and the
    attribute afterwards. Reading an absent attribute raises
    [AttributeError]; what was assigned before stays assigned. *)
Definition monkey_patch_llama_cpp_python (lib : option Llama)
    : outcome unit * option Llama :=
  match lib with
  | None => (Raise (AttributeError (py "Llama")), None)
  | Some cls =>
      if _is_patched cls then (Return tt, Some cls)
      else
        let cls := mkLlama (Some eval_with_progress) (generate cls)
                           (original_generate cls) (_is_patched cls) in
        match generate cls with
        | None => (Raise (AttributeError (py "generate")), Some cls)
        | Some generate =>
            (Return tt,
             Some (mkLlama (eval cls) (Some my_generate) (Some generate) true))
        end
  end.

(** The global [imported_module] and the modules that [importlib] can
    import, each with its attribute [Llama] or without one. *)
Record World := mkWorld {
  imported_module : option str;
  installed : gmap str (option Llama)
}.

(** A call that reads and writes the world and may raise. *)
Definition M (A : Type) : Type := World -> outcome A * World.

#[global] Instance M_ret : MRet M := fun A a w => (Return a, w).
#[global] Instance M_bind : MBind M := fun A B f m w =>
  match m w with
  | (Return a, w') => f a w'
  | (Raise e, w') => (Raise e, w')
  | (OutOfFuel, w') => (OutOfFuel, w')
  end.

Definition module_to_purpose (module_name : str) : str :=
  if decide (module_name = py "llama_cpp") then py "CPU"
  else if decide (module_name = py "llama_cpp_cuda_tensorcores") then py "tensorcores"
  else if decide (module_name = py "llama_cpp_cuda") then py "default"
  else py "unknown".

(** [if imported_module and imported_module != name: raise Exception(...)] *)
Definition check_loaded (name version : str) : M unit := fun w =>
  match imported_module w with
  | Some loaded =>
      if truthy loaded && bool_decide (loaded ≠ name)
      then (Raise (Exception
                     (py "The " ++ module_to_purpose loaded
                      ++ py " version of llama-cpp-python is already loaded. Switching to the "
                      ++ version ++ py " version currently requires a server restart.")), w)
      else (Return tt, w)
  | None => (Return tt, w)
  end.

(** [try: return_lib = importlib.import_module(name); imported_module = name]
    [except: pass] *)
Definition try_import (name : str) (return_lib : option str) : M (option str) := fun w =>
  match installed w !! name with
  | Some _ => (Return (Some name), mkWorld (Some name) (installed w))
  | None => (Return return_lib, w)
  end.

(** [monkey_patch_llama_cpp_python(return_lib)], on the module of that name
    in the world. *)
Definition patch (lib : str) : M unit := fun w =>
  let '(r, cls) := monkey_patch_llama_cpp_python (mjoin (installed w !! lib)) in
  (r, mkWorld (imported_module w) (alter (fun _ => cls) lib (installed w))).

Definition get_imported_module : M (option str) := fun w => (Return (imported_module w), w).

(** [llama_cpp_lib], for the two flags of [shared.args]; the library it
    returns is named by its module. *)
Definition llama_cpp_lib (cpu tensorcores : bool) : M (option str) :=
  let return_lib := None in
  return_lib ←
    (if cpu then
       _ ← check_loaded (py "llama_cpp") (py "CPU");
       try_import (py "llama_cpp") return_lib
     else mret return_lib);
  return_lib ←
    (if tensorcores && bool_decide (return_lib = None) then
       _ ← check_loaded (py "llama_cpp_cuda_tensorcores") (py "tensorcores");
       try_import (py "llama_cpp_cuda_tensorcores") return_lib
     else mret return_lib);
  loaded ← get_imported_module;
  return_lib ←
    (if bool_decide (return_lib = None) && negb cpu
        && bool_decide (loaded ≠ Some (py "llama_cpp_cuda")) then
       _ ← check_loaded (py "llama_cpp") (py "CPU");
       try_import (py "llama_cpp") return_lib
     else mret return_lib);
  return_lib ←
    (if bool_decide (return_lib = None) then
       _ ← check_loaded (py "llama_cpp_cuda") (py "default");
       try_import (py "llama_cpp_cuda") return_lib
     else mret return_lib);
  _ ← match return_lib with
      | Some lib => patch lib
      | None => mret tt
      end;
  mret return_lib.

(** The modules a first call tries, in order. *)
Definition candidates (cpu tensorcores : bool) : list str :=
  (if cpu then [py "llama_cpp"] else [])
  ++ (if tensorcores then [py "llama_cpp_cuda_tensorcores"] else [])
  ++ (if cpu then [] else [py "llama_cpp"])
  ++ [py "llama_cpp_cuda"].

End LlamaCpp.

(** ** [extensions/coqui_tts/script.py] *)

Section CoquiTTS.

(** [chat_html_wrapper], as the extension calls it. *)
Variable chat_html_wrapper : list (str * str) -> str -> str -> str -> str.

(** The loop of [remove_tts_from_history] from iteration [i] on: how it ends
    and the visible list it leaves in [shared.history]. *)
Fixpoint remove_tts_loop (i : nat) (entries visible : list (str * str))
    : result unit * list (str * str) :=
  match entries with
  | [] => (Ok tt, visible)
  | entry :: entries =>
      match PyMore.update_at i (fun turn => (turn.1, entry.2)) visible with
      | Ok visible => remove_tts_loop (S i) entries visible
      | Error e => (Error e, visible)
      end
  end.

(** [remove_tts_from_history], on [shared.history]: what it returns or
    raises, and the history it leaves. *)
Definition remove_tts_from_history (history : History) (name1 name2 mode : str)
    : result str * History :=
  let '(r, visible) := remove_tts_loop 0 (internal history) (visible history) in
  (_ ← r; Ok (chat_html_wrapper visible name1 name2 mode),
   mkHistory (internal history) visible).

End CoquiTTS.

(** ** Notions the further statements use *)

(** The lists the loop passes through: a tail of the original list, or such
    a tail behind one system message that stood before it. *)
Definition newest_kept (msgs m : list message) : Prop :=
  ∃ k, m = drop k msgs ∨
       ∃ j sys, j < k ∧ msgs !! j = Some sys ∧ role sys = system ∧
                m = sys :: drop k msgs.

(** A message of a turn or the trailing message: not a system message, with
    a content that is stripped and not blank. *)
Definition spoken (m : message) : Prop :=
  role m ≠ system ∧ content m ≠ [] ∧ Py.strip (content m) = content m.

(** Sample hooks: an escape of [<] alone, and extensions that change
    nothing. *)
Definition sample_escape (s : str) : str := Py.replace (py "<") (py "&lt;") s.
Definition sample_unescape (s : str) : str := Py.replace (py "&lt;") (py "<") s.
Definition sample_input (text : str) (state : UIState) : str := text.

Definition sample_ui_state (m : Mode) (h : History) : UIState :=
  mkUIState
    (mkState m (py "You") (py "Bot") [] [] (py "chat") (py "instruct")
       (py "Continue the chat: <|prompt|>") h None)
    (py "Hello!") (py "Bot") [] false (py "cai-chat").

(** The history [y] is [base] followed by one turn with the given user
    texts. *)
Definition last_turn (base : History) (user visible_user : str) (y : History) : Prop :=
  ∃ reply visible_reply,
    internal y = internal base ++ [(user, reply)] ∧
    visible y = visible base ++ [(visible_user, visible_reply)].

(** A sample world: the tag template for both modes, extensions that change
    nothing, and a [generate_reply] that yields the given replies. *)
Definition sample_env (loaded : bool) (replies : list str) : Env :=
  mkEnv (sample_from_string tag_template tag_template) (fun p _ => p)
        sample_length (fun _ => 2048%Z) sample_escape sample_unescape
        (fun h => h) (fun state => state) (fun text visible_text _ => (text, visible_text))
        sample_input (fun reply _ => reply) (fun _ _ _ => None)
        (py "*Is typing...*") loaded (fun _ _ _ _ => replies) (fun _ => false)
        (fun name reply => Ok (Py.replace (py "<USER>") name reply))
        (fun h _ _ _ _ _ => concat (map (fun turn => turn.1 ++ turn.2) (visible h))).

(** The sample state with [start_with] set. *)
Definition sample_start_state (m : Mode) (h : History) (start : str) : UIState :=
  mkUIState (prompt_state (sample_ui_state m h)) (py "Hello!") (py "Bot") start false
            (py "cai-chat").

(** A world with the given modules installed, their classes unpatched. *)
Definition sample_world (loaded : option str) (names : list str) : LlamaCpp.World :=
  LlamaCpp.mkWorld loaded
    (list_to_map
       ((fun name => (name, Some (LlamaCpp.mkLlama (Some (LlamaCpp.upstream (py "eval")))
                                    (Some (LlamaCpp.upstream (py "generate"))) None false)))
        <$> names)).

(** ** Facts about the [str] methods *)

Lemma bind_Ok {A B} (a : A) (f : A -> result B) : (Ok a ≫= f) = f a.
Proof. done. Qed.

Lemma bind_Error {A B} (e : exn) (f : A -> result B) : (Error e ≫= f) = Error e.
Proof. done. Qed.


Module PyFacts.
Import Py.

Lemma startswith_prefix s p : startswith s p = true ↔ p `prefix_of` s.
Proof.
  revert s. induction p as [|c p IH]; intros s; simpl.
  - split; [intros _; apply prefix_nil | by destruct s].
  - destruct s as [|d s]; simpl.
    + split; [done | intros H; by apply prefix_nil_not in H].
    + destruct (decide (c = d)) as [->|Hne].
      * rewrite IH. split; [apply prefix_cons | apply prefix_cons_inv_2].
      * split; [done | intros H; by apply prefix_cons_inv_1 in H].
Qed.

Lemma startswith_app s b : startswith (s ++ b) s = true.
Proof. apply startswith_prefix. by exists b. Qed.

Lemma startswith_false_nonempty s p : startswith s p = false → p ≠ [].
Proof. by destruct p, s. Qed.

Lemma find_nil sep : find sep [] = if startswith [] sep then Some 0 else None.
Proof. done. Qed.

Lemma find_cons sep c s :
  find sep (c :: s) = if startswith (c :: s) sep then Some 0 else S <$> find sep s.
Proof. done. Qed.

Lemma find_Some sep s i :
  find sep s = Some i → ∃ a b, s = a ++ sep ++ b ∧ length a = i.
Proof.
  revert i. induction s as [|c s IH]; intros i.
  - rewrite find_nil. destruct (startswith [] sep) eqn:E; [|done].
    intros [= <-]. apply startswith_prefix in E as [k Hk]. by exists [], k.
  - rewrite find_cons. destruct (startswith (c :: s) sep) eqn:E.
    + intros [= <-]. apply startswith_prefix in E as [k Hk]. by exists [], k.
    + destruct (find sep s) as [j|]; [|done]. intros [= <-].
      destruct (IH j eq_refl) as (a & b & -> & <-). by exists (c :: a), b.
Qed.

Lemma find_None sep s a b : find sep s = None → s ≠ a ++ sep ++ b.
Proof.
  revert a. induction s as [|c s IH]; intros a.
  - rewrite find_nil. destruct (startswith [] sep) eqn:E; [done|]. intros _ H.
    apply startswith_false_nonempty in E.
    symmetry in H. apply app_eq_nil in H as [_ H]. by apply app_eq_nil in H as [? _].
  - rewrite find_cons. destruct (startswith (c :: s) sep) eqn:E; [done|].
    destruct (find sep s) as [j|] eqn:F; [done|]. intros _ H.
    destruct a as [|d a]; simpl in H.
    + rewrite H, startswith_app in E. done.
    + injection H as -> H. by eapply IH.
Qed.

Lemma contains_true sep s :
  contains sep s = true ↔ ∃ a b, s = a ++ sep ++ b.
Proof.
  unfold contains. rewrite bool_decide_eq_true. split.
  - intros [i Hi]. apply find_Some in Hi as (a & b & ? & _). eauto.
  - intros (a & b & H). destruct (find sep s) eqn:F; [eauto|].
    by eapply find_None in F.
Qed.

Lemma contains_false sep s : contains sep s = false ↔ find sep s = None.
Proof.
  unfold contains. rewrite bool_decide_eq_false, <- eq_None_not_Some. done.
Qed.

Lemma occurrences_nil sep :
  occurrences sep [] = (if startswith [] sep then 1 else 0) + 0.
Proof. done. Qed.

Lemma occurrences_cons sep c s :
  occurrences sep (c :: s) =
  (if startswith (c :: s) sep then 1 else 0) + occurrences sep s.
Proof. done. Qed.

Lemma occurrences_app_ge sep a s : occurrences sep s ≤ occurrences sep (a ++ s).
Proof.
  induction a as [|c a IH]; [done|].
  rewrite <- app_comm_cons, occurrences_cons. lia.
Qed.

Lemma occurrences_sep_app sep b :
  sep ≠ [] → S (occurrences sep b) ≤ occurrences sep (sep ++ b).
Proof.
  intros Hsep. pose proof (startswith_app sep b) as E.
  destruct sep as [|c sep]; [done|].
  rewrite <- app_comm_cons in *. rewrite occurrences_cons, E.
  pose proof (occurrences_app_ge (c :: sep) sep b). lia.
Qed.

Lemma occurrences_0_find sep s : occurrences sep s = 0 → find sep s = None.
Proof.
  induction s as [|c s IH].
  - rewrite occurrences_nil, find_nil. by destruct (startswith [] sep).
  - rewrite occurrences_cons, find_cons.
    destruct (startswith (c :: s) sep); [done|].
    intros H. by rewrite IH.
Qed.

(** A separator that occurs once is found where it stands, and not after. *)
Lemma find_app_once sep a b :
  sep ≠ [] → occurrences sep (a ++ sep ++ b) = 1 →
  find sep (a ++ sep ++ b) = Some (length a) ∧ find sep b = None.
Proof.
  intros Hsep. induction a as [|c a IH]; intros H.
  - pose proof (occurrences_sep_app sep b Hsep). simpl in *. split.
    + pose proof (startswith_app sep b) as E.
      destruct (sep ++ b); [by rewrite find_nil, E | by rewrite find_cons, E].
    + apply occurrences_0_find. lia.
  - rewrite <- app_comm_cons in *. rewrite occurrences_cons in H.
    pose proof (occurrences_sep_app sep b Hsep).
    pose proof (occurrences_app_ge sep a (sep ++ b)).
    rewrite find_cons.
    destruct (startswith (c :: a ++ sep ++ b) sep); [lia|].
    destruct IH as [-> ?]; [lia | done].
Qed.

Lemma split_scan_None n sep s : find sep s = None → split_scan n sep s = [s].
Proof. intros H. destruct n; simpl; by rewrite ?H. Qed.

Lemma split_nonempty sep s :
  sep ≠ [] → split sep s = Ok (split_scan (length s) sep s).
Proof. by destruct sep. Qed.

Lemma split_scan_S n sep s :
  split_scan (S n) sep s =
  match find sep s with
  | None => [s]
  | Some i => take i s :: split_scan n sep (drop (i + length sep) s)
  end.
Proof. done. Qed.

Lemma split_None sep s : sep ≠ [] → find sep s = None → split sep s = Ok [s].
Proof. intros Hsep H. by rewrite split_nonempty, split_scan_None. Qed.

(** [(a + sep + b).split(sep) == [a, b]] when [sep] occurs once. *)
Lemma split_once sep a b :
  sep ≠ [] → occurrences sep (a ++ sep ++ b) = 1 →
  split sep (a ++ sep ++ b) = Ok [a; b].
Proof.
  intros Hsep H. destruct (find_app_once sep a b Hsep H) as [F1 F2].
  rewrite split_nonempty by done.
  destruct (length (a ++ sep ++ b)) as [|n] eqn:L.
  { rewrite !length_app in L. destruct sep; [done | simpl in L; lia]. }
  rewrite split_scan_S, F1, take_app_length.
  rewrite (app_assoc a sep b), <- length_app, drop_app_length.
  by rewrite split_scan_None.
Qed.

Lemma find_nil_nonempty sep : sep ≠ [] → find sep [] = None.
Proof. intros H. rewrite find_nil. by destruct sep. Qed.

(** [length s] rounds are enough for the scans: more change nothing. *)
Lemma split_scan_fuel n m sep s :
  sep ≠ [] → length s ≤ n → length s ≤ m → split_scan n sep s = split_scan m sep s.
Proof.
  intros Hsep. revert m s. induction n as [|n IH]; intros m s Hn Hm.
  - destruct s; [|simpl in Hn; lia].
    by rewrite !split_scan_None by by apply find_nil_nonempty.
  - destruct m as [|m].
    + destruct s; [|simpl in Hm; lia].
      by rewrite !split_scan_None by by apply find_nil_nonempty.
    + rewrite !split_scan_S. destruct (find sep s) as [i|]; [|done].
      f_equal. assert (0 < length sep) by (destruct sep; [done | simpl; lia]).
      apply IH; rewrite length_drop; lia.
Qed.

Lemma replace_scan_fuel n m old new s :
  old ≠ [] → length s ≤ n → length s ≤ m →
  replace_scan n old new s = replace_scan m old new s.
Proof.
  intros Hold. revert m s. induction n as [|n IH]; intros m s Hn Hm.
  - destruct s; [|simpl in Hn; lia].
    destruct m; [done|]. cbn [replace_scan]. by rewrite find_nil_nonempty.
  - destruct m as [|m].
    + destruct s; [|simpl in Hm; lia]. cbn [replace_scan].
      by rewrite find_nil_nonempty.
    + cbn [replace_scan]. destruct (find old s) as [i|]; [|done].
      do 2 f_equal. assert (0 < length old) by (destruct old; [done | simpl; lia]).
      apply IH; rewrite length_drop; lia.
Qed.

Lemma split_scan_head n sep s : ∃ x l, split_scan n sep s = x :: l.
Proof. destruct n; simpl; [eauto|]. destruct (find sep s); eauto. Qed.

Lemma getitem_Error {A} (l : list A) i e : getitem l i = Error e → e = IndexError.
Proof.
  unfold getitem. destruct (_ <? 0)%Z; [by intros [= <-]|].
  destruct (l !! _); [done | by intros [= <-]].
Qed.

Lemma slice_from_len {A B} (a : list A) (l : list B) :
  slice_from (len a) l = drop (length a) l.
Proof.
  unfold slice_from, bound, len.
  destruct (Z.ltb_spec (Z.of_nat (length a)) 0); [lia|]. by rewrite Nat2Z.id.
Qed.

Lemma slice_to_neg_len {A B} (a : list A) (l : list B) :
  slice_to (- len a) l =
  if decide (length a = 0) then [] else take (length l - length a) l.
Proof.
  unfold slice_to, bound, len. destruct (decide (length a = 0)) as [->|Hne].
  - done.
  - destruct (Z.ltb_spec (- Z.of_nat (length a)) 0); [|lia].
    f_equal. lia.
Qed.

End PyFacts.

(** ** [str.replace] as a pass over the text *)

Module ReplaceFacts.
Import Py PyFacts.

Lemma pass_nil p n k : substitution_pass p n k [] = [].
Proof. done. Qed.

Lemma pass_skip p n a rest : substitution_pass p n (length a) (a ++ rest) = substitution_pass p n 0 rest.
Proof.
  induction a as [|c a IH]; [|done].
  destruct rest; done.
Qed.

Lemma pass_miss p n c rest :
  startswith (c :: rest) p = false → substitution_pass p n 0 (c :: rest) = c :: substitution_pass p n 0 rest.
Proof.
  intros H. cbn [substitution_pass]. rewrite decide_False; [done|].
  intros Hp%startswith_prefix. congruence.
Qed.

Lemma pass_hit p n rest :
  p ≠ [] → substitution_pass p n 0 (p ++ rest) = n ++ substitution_pass p n 0 rest.
Proof.
  intros Hp. destruct p as [|c p]; [done|]. cbn [substitution_pass app].
  rewrite decide_True by (by exists rest).
  f_equal. replace (length (c :: p) - 1) with (length p) by (simpl; lia).
  apply pass_skip.
Qed.

(** Before the first occurrence a pass changes nothing. *)
Lemma pass_until p n s i :
  find p s = Some i → p ≠ [] →
  substitution_pass p n 0 s = take i s ++ n ++ substitution_pass p n 0 (drop (i + length p) s).
Proof.
  intros Hf Hp. revert i Hf. induction s as [|c s IH]; intros i.
  - rewrite find_nil_nonempty by done. done.
  - rewrite find_cons. destruct (startswith (c :: s) p) eqn:E.
    + intros [= <-]. apply startswith_prefix in E as [rest Hrest].
      rewrite Hrest. cbn [take app]. rewrite pass_hit by done.
      by rewrite Nat.add_0_l, drop_app_length.
    + destruct (find p s) as [j|] eqn:F; [|done]. intros [= <-].
      rewrite pass_miss by done. cbn [take drop Nat.add app]. f_equal.
      by apply IH.
Qed.

Lemma pass_none p n s : find p s = None → substitution_pass p n 0 s = s.
Proof.
  induction s as [|c s IH]; [done|].
  rewrite find_cons. destruct (startswith (c :: s) p) eqn:E; [done|].
  destruct (find p s) as [j|] eqn:F; [done|]. intros _.
  rewrite pass_miss by done. f_equal. by apply IH.
Qed.

Lemma replace_scan_pass p n fuel : ∀ s,
  p ≠ [] → length s ≤ fuel → replace_scan fuel p n s = substitution_pass p n 0 s.
Proof.
  induction fuel as [|fuel IH]; intros s Hp Hlen.
  - destruct s; [done | simpl in Hlen; lia].
  - cbn [replace_scan]. destruct (find p s) as [i|] eqn:F.
    + rewrite (pass_until _ _ _ _ F) by done. do 2 f_equal.
      apply IH; [done|]. rewrite length_drop.
      apply find_Some in F as (a & b & -> & <-).
      rewrite !length_app in *. destruct p; [done|]. simpl in *. lia.
    + by rewrite pass_none.
Qed.

(** [str.replace] is one pass. *)
Lemma replace_pass p n s : p ≠ [] → replace p n s = substitution_pass p n 0 s.
Proof.
  intros Hp. unfold replace. destruct p as [|c p]; [done|].
  by apply replace_scan_pass.
Qed.

Lemma replace_character_names_substituted text name1 name2 :
  replace_character_names text name1 name2 = substituted name1 name2 text.
Proof.
  unfold replace_character_names, substituted. cbv zeta.
  by rewrite !replace_pass by done.
Qed.

End ReplaceFacts.

(** ** The boundary prober *)

Module Prober.
Import Py PyFacts.

Lemma SENTINEL_1_nonempty : SENTINEL_1 ≠ [].
Proof. done. Qed.

Lemma SENTINEL_2_nonempty : SENTINEL_2 ≠ [].
Proof. done. Qed.

Lemma probe_messages_eq imp :
  probe_messages imp =
  [Message (probed_role imp) SENTINEL_1; Message (probed_role imp) SENTINEL_2].
Proof. by destruct imp. Qed.

Lemma get_generation_prompt_unfold render imp strip prompt :
  render (probe_messages imp) = Ok prompt →
  get_generation_prompt render imp strip =
  (after_first ← split SENTINEL_1 prompt ≫= (fun l => getitem l 1%Z);
   suffix_plus_prefix ← split SENTINEL_2 after_first ≫= (fun l => getitem l 0%Z);
   suffix ← split SENTINEL_2 prompt ≫= (fun l => getitem l 1%Z);
   let prefix := slice_from (len suffix) suffix_plus_prefix in
   let prefix := if strip then rstrip (py " ") prefix else prefix in
   Ok (prefix, suffix)).
Proof. intros H. unfold get_generation_prompt. by rewrite H. Qed.

(** C7. When the rendered probe lacks either sentinel, the probe raises
    [IndexError] to its caller; it returns no (prefix, suffix) pair. *)
Theorem probe_failure_surfaces render imp strip prompt :
  render (probe_messages imp) = Ok prompt →
  contains SENTINEL_1 prompt = false ∨ contains SENTINEL_2 prompt = false →
  get_generation_prompt render imp strip = Error IndexError.
Proof.
  intros Hr Hmiss. rewrite (get_generation_prompt_unfold _ _ _ _ Hr).
  destruct (contains SENTINEL_1 prompt) eqn:C1.
  - destruct Hmiss as [?|C2]; [done|].
    apply contains_false in C2.
    destruct (split SENTINEL_1 prompt ≫= (fun l => getitem l 1%Z))
      as [after_first|e] eqn:E1.
    + rewrite bind_Ok, (split_nonempty SENTINEL_2 after_first) by done.
      destruct (split_scan_head (length after_first) SENTINEL_2 after_first)
        as (x & l & ->).
      rewrite !bind_Ok.
      by rewrite (split_None SENTINEL_2 prompt).
    + rewrite split_nonempty, bind_Ok in E1 by done.
      by apply getitem_Error in E1 as ->.
  - apply contains_false in C1.
    by rewrite (split_None SENTINEL_1 prompt).
Qed.

Lemma probe_failure_surfaces_witness :
  get_generation_prompt (instruct_renderer_of blank_template) false true
  = Error IndexError.
Proof.
  apply (probe_failure_surfaces _ _ _ (py "hello")); [reflexivity|].
  left. reflexivity.
Defined.

(** C1, as the code has it. For a renderer that writes the messages of the
    probed role one after the other as [pre ++ content ++ suf], and in
    whose rendering of the two sentinel messages each sentinel occurs once,
    the probe returns [(pre, suf)], [pre] without its trailing spaces when
    [strip_trailing_spaces] is set; the round trip
    [render [{role, X}] = prefix ++ X ++ suffix] then holds for every [X]
    whenever no space was trimmed. *)
Theorem probe_recovers_turn_boundaries render imp strip pre suf :
  renders_turns render (probed_role imp) pre suf →
  occurrences SENTINEL_1 (pre ++ SENTINEL_1 ++ suf ++ pre ++ SENTINEL_2 ++ suf) = 1 →
  occurrences SENTINEL_2 (pre ++ SENTINEL_1 ++ suf ++ pre ++ SENTINEL_2 ++ suf) = 1 →
  ∃ prefix suffix,
    get_generation_prompt render imp strip = Ok (prefix, suffix) ∧
    prefix = (if strip then rstrip (py " ") pre else pre) ∧
    suffix = suf ∧
    (strip = false ∨ rstrip (py " ") pre = pre →
     ∀ X, render [Message (probed_role imp) X] = Ok (prefix ++ X ++ suffix)).
Proof.
  intros Hturns H1 H2.
  assert (render (probe_messages imp)
          = Ok (pre ++ SENTINEL_1 ++ suf ++ pre ++ SENTINEL_2 ++ suf)) as Hr.
  { rewrite probe_messages_eq, Hturns by (repeat constructor).
    simpl. by rewrite app_nil_r, <- !app_assoc. }
  assert (get_generation_prompt render imp strip
          = Ok (if strip then rstrip (py " ") pre else pre, suf)) as Hp.
  { rewrite (get_generation_prompt_unfold _ _ _ _ Hr).
    rewrite (split_once SENTINEL_1 pre) by done. rewrite !bind_Ok.
    change (getitem [pre; suf ++ pre ++ SENTINEL_2 ++ suf] 1%Z)
      with (Ok (suf ++ pre ++ SENTINEL_2 ++ suf) : result str).
    rewrite bind_Ok.
    assert (occurrences SENTINEL_2 ((suf ++ pre) ++ SENTINEL_2 ++ suf) = 1) as H3.
    { pose proof (occurrences_app_ge SENTINEL_2 (pre ++ SENTINEL_1)
                    ((suf ++ pre) ++ SENTINEL_2 ++ suf)) as Hle.
      pose proof (occurrences_app_ge SENTINEL_2 (suf ++ pre) (SENTINEL_2 ++ suf)) as Hge.
      pose proof (occurrences_sep_app SENTINEL_2 suf SENTINEL_2_nonempty).
      rewrite <- !app_assoc in Hle, Hge |- *.
      rewrite <- (app_assoc pre SENTINEL_1), H2 in Hle. lia. }
    rewrite (app_assoc suf pre), (split_once SENTINEL_2 (suf ++ pre)) by done.
    rewrite !bind_Ok.
    change (getitem [suf ++ pre; suf] 0%Z) with (Ok (suf ++ pre) : result str).
    rewrite bind_Ok.
    assert (pre ++ SENTINEL_1 ++ (suf ++ pre) ++ SENTINEL_2 ++ suf
            = (pre ++ SENTINEL_1 ++ suf ++ pre) ++ SENTINEL_2 ++ suf) as ->
      by (by rewrite <- !app_assoc).
    rewrite (split_once SENTINEL_2 (pre ++ SENTINEL_1 ++ suf ++ pre))
      by first [done | by rewrite <- !app_assoc].
    rewrite !bind_Ok.
    change (getitem [pre ++ SENTINEL_1 ++ suf ++ pre; suf] 1%Z)
      with (Ok suf : result str).
    rewrite bind_Ok.
    cbv zeta. by rewrite slice_from_len, drop_app_length. }
  eexists _, _. split; [exact Hp|]. split; [done|]. split; [done|].
  intros Hkeep X. rewrite Hturns by (repeat constructor). simpl.
  rewrite app_nil_r. f_equal.
  destruct Hkeep as [->|Heq]; [done|]. destruct strip; [|done].
  exact (f_equal (fun p => p ++ X ++ suf) (eq_sym Heq)).
Qed.

Lemma probe_recovers_turn_boundaries_witness :
  ∃ prefix suffix,
    get_generation_prompt (instruct_renderer_of tag_template) false true
    = Ok (prefix, suffix) ∧
    prefix = py "<|assistant|>" ∧ suffix = py "</s>" ∧
    (true = false ∨ rstrip (py " ") (py "<|assistant|>") = py "<|assistant|>" →
     ∀ X, instruct_renderer_of tag_template [Message assistant X]
          = Ok (prefix ++ X ++ suffix)).
Proof.
  apply (probe_recovers_turn_boundaries
           (instruct_renderer_of tag_template) false true
           (py "<|assistant|>") (py "</s>")).
  - intros ms Hms. unfold instruct_renderer_of, tag_template, turn_template.
    simpl. f_equal. induction Hms as [|m ms Hm _ IH]; [done|].
    simpl. by rewrite IH, Hm.
  - reflexivity.
  - reflexivity.
Defined.

(** C1 fails as stated: a template that opens the rendering with [<s>]
    yields boundaries that do not rebuild a one-message rendering, even
    without trimming. *)
Lemma round_trip_fails_after_leading_text :
  get_generation_prompt (instruct_renderer_of bos_tag_template) false false
  = Ok (py "<|assistant|>", py "</s>") ∧
  contains SENTINEL_1 (py "hi") = false ∧
  contains SENTINEL_2 (py "hi") = false ∧
  instruct_renderer_of bos_tag_template [Message assistant (py "hi")]
  ≠ Ok (py "<|assistant|>" ++ py "hi" ++ py "</s>").
Proof. repeat split; done. Qed.

End Prober.

(** ** The truncation loop *)

Section TruncationFacts.
Import Py.

Variable compose : list message -> result str.
Variable encoded_length : str -> Z.

Local Abbreviation step := (truncation_step compose).
Local Abbreviation loop B := (truncation_loop compose encoded_length B).
Local Abbreviation over B := (over_budget encoded_length B).

Lemma truncation_step_eq msgs :
  msgs ≠ [] →
  step msgs = (prompt ← compose (popped msgs); Ok (popped msgs, prompt)).
Proof.
  intros Hne. unfold truncation_step, popped, saves_system, pop.
  assert (0 < length msgs) by (destruct msgs; [done | simpl; lia]).
  destruct (1 <? length msgs) eqn:E1; simpl andb.
  - apply Nat.ltb_lt in E1. destruct (bool_decide _).
    + by destruct (decide (1 < length msgs)); [|lia].
    + by destruct (decide (0 < length msgs)); [|lia].
  - by destruct (decide (0 < length msgs)); [|lia].
Qed.

Lemma truncation_step_Ok msgs msgs' prompt' :
  msgs ≠ [] →
  step msgs = Ok (msgs', prompt') ↔
  msgs' = popped msgs ∧ compose msgs' = Ok prompt'.
Proof.
  intros Hne. rewrite truncation_step_eq by done.
  destruct (compose (popped msgs)) as [q|e] eqn:E; simpl.
  - split; [by intros [= <- <-] | intros [-> H]]. congruence.
  - split; [done | intros [-> H]]. congruence.
Qed.

Lemma truncation_step_Error msgs e :
  msgs ≠ [] → step msgs = Error e → ∃ msgs', compose msgs' = Error e.
Proof.
  intros Hne. rewrite truncation_step_eq by done.
  destruct (compose (popped msgs)) as [q|e'] eqn:E; simpl; [done|].
  intros [= <-]. eauto.
Qed.

Lemma over_nonempty B msgs prompt : over B msgs prompt = true → msgs ≠ [].
Proof. unfold over_budget. by destruct msgs. Qed.

(** Every iteration removes exactly one message. *)
Lemma truncation_step_length msgs msgs' prompt' :
  msgs ≠ [] → step msgs = Ok (msgs', prompt') → length msgs = S (length msgs').
Proof.
  intros Hne [-> _]%truncation_step_Ok; [|done]. unfold popped.
  destruct msgs as [|m [|m' msgs]]; [done| |].
  - reflexivity.
  - destruct (saves_system (m :: m' :: msgs)); simpl; lia.
Qed.

Lemma truncation_loop_unfold B fuel msgs prompt :
  loop B fuel msgs prompt =
  if over B msgs prompt then
    match fuel with
    | 0 => None
    | S fuel' =>
        match step msgs with
        | Error e => Some (Error e)
        | Ok (msgs', prompt') => loop B fuel' msgs' prompt'
        end
    end
  else Some (Ok (prompt, msgs)).
Proof. by destruct fuel. Qed.

(** The loop ends within [len(messages)] iterations, whatever the composing
    function, the length function and the budget. *)
Lemma truncation_loop_terminates B fuel msgs prompt :
  length msgs ≤ fuel → ∃ r, loop B fuel msgs prompt = Some r.
Proof.
  revert msgs prompt. induction fuel as [|fuel IH]; intros msgs prompt Hlen.
  - destruct msgs; [|simpl in Hlen; lia]. simpl. eauto.
  - rewrite truncation_loop_unfold. destruct (over B msgs prompt) eqn:E; [|eauto].
    destruct (step msgs) as [[msgs' prompt']|e] eqn:Es; [|eauto].
    apply IH. apply over_nonempty in E.
    apply truncation_step_length in Es; [lia | done].
Qed.

(** What the loop returns is within budget or empty, is no longer than what
    it started from, and carries the prompt composed from the list it
    returns. *)
Lemma truncation_loop_returns B fuel msgs prompt prompt' msgs' :
  loop B fuel msgs prompt = Some (Ok (prompt', msgs')) →
  over B msgs' prompt' = false ∧ length msgs' ≤ length msgs ∧
  (msgs' = msgs ∧ prompt' = prompt ∨ compose msgs' = Ok prompt').
Proof.
  revert msgs prompt. induction fuel as [|fuel IH]; intros msgs prompt;
    rewrite truncation_loop_unfold; destruct (over B msgs prompt) eqn:E;
    try done; try (intros [= <- <-]; by eauto).
  destruct (step msgs) as [[msgs1 prompt1]|e] eqn:Es; [|done].
  intros H. apply over_nonempty in E.
  pose proof (truncation_step_length _ _ _ E Es).
  apply truncation_step_Ok in Es as [_ Hc]; [|done].
  destruct (IH _ _ H) as (? & ? & [[-> ->]|?]); split_and!; eauto with lia.
Qed.

(** An exception that leaves the loop was raised by the composing function. *)
Lemma truncation_loop_raises B fuel msgs prompt e :
  loop B fuel msgs prompt = Some (Error e) → ∃ msgs', compose msgs' = Error e.
Proof.
  revert msgs prompt. induction fuel as [|fuel IH]; intros msgs prompt;
    rewrite truncation_loop_unfold; destruct (over B msgs prompt) eqn:E; try done.
  destruct (step msgs) as [[msgs1 prompt1]|e1] eqn:Es.
  - apply IH.
  - intros [= <-]. apply over_nonempty in E. by eapply truncation_step_Error.
Qed.

Lemma over_budget_mono B1 B2 msgs prompt :
  (B1 ≤ B2)%Z → over B2 msgs prompt = true → over B1 msgs prompt = true.
Proof.
  unfold over_budget. intros HB [-> H]%andb_true_iff. simpl.
  apply Z.ltb_lt in H. apply Z.ltb_lt. lia.
Qed.

(** C6. Under a larger budget the loop returns whenever it returns under
    the smaller one, and it retains at least as many messages. *)
Theorem truncation_monotone B1 B2 fuel msgs prompt prompt1 msgs1 :
  (B1 < B2)%Z →
  truncation_loop compose encoded_length B1 fuel msgs prompt
  = Some (Ok (prompt1, msgs1)) →
  ∃ prompt2 msgs2,
    truncation_loop compose encoded_length B2 fuel msgs prompt
    = Some (Ok (prompt2, msgs2)) ∧
    length msgs1 ≤ length msgs2.
Proof.
  intros HB. revert msgs prompt.
  induction fuel as [|fuel IH]; intros msgs prompt H;
    rewrite truncation_loop_unfold; destruct (over B2 msgs prompt) eqn:E2.
  - rewrite truncation_loop_unfold, (over_budget_mono B1 B2) in H; [done|lia|done].
  - apply truncation_loop_returns in H as (_ & ? & _). eauto.
  - rewrite truncation_loop_unfold, (over_budget_mono B1 B2) in H; [|lia|done].
    destruct (step msgs) as [[msgs' prompt']|e]; [by apply IH | done].
  - apply truncation_loop_returns in H as (_ & ? & _). eauto.
Qed.

Lemma truncation_loop_reaches B fuel msgs prompt prompt' msgs' :
  loop B fuel msgs prompt = Some (Ok (prompt', msgs')) →
  rtc (loop_step compose encoded_length B) (msgs, prompt) (msgs', prompt').
Proof.
  revert msgs prompt. induction fuel as [|fuel IH]; intros msgs prompt;
    rewrite truncation_loop_unfold; destruct (over B msgs prompt) eqn:E;
    try done; try (intros [= <- <-]; by apply rtc_refl).
  destruct (step msgs) as [[msgs1 prompt1]|e] eqn:Es; [|done].
  intros H. eapply rtc_l; [|by apply IH]. by split.
Qed.

Lemma popped_system_head sys x tl :
  role sys = system → popped (sys :: x :: tl) = sys :: tl.
Proof.
  intros Hs. unfold popped, saves_system. simpl.
  by rewrite Hs, bool_decide_eq_true_2.
Qed.

Lemma popped_single m : popped [m] = [].
Proof. done. Qed.

Lemma loop_step_invariant B sys rest prompt0 s :
  role sys = system →
  rtc (loop_step compose encoded_length B) (sys :: rest, prompt0) s →
  s.1 = [] ∨ ∃ k, s.1 = sys :: drop k rest.
Proof.
  intros Hs. revert s. apply rtc_ind_r.
  - right. by exists 0.
  - intros [msgs prompt] [msgs' prompt'] Hrtc [Hover Hstep] IH. simpl in *.
    apply over_nonempty in Hover.
    apply truncation_step_Ok in Hstep as [-> _]; [|done].
    destruct IH as [?|[k ->]]; [done|].
    destruct (drop k rest) as [|x tl] eqn:E.
    + left. apply popped_single.
    + right. exists (S k). rewrite popped_system_head by done. f_equal.
      replace (S k) with (k + 1) by lia. by rewrite <- drop_drop, E.
Qed.

Lemma popped_length msgs : msgs ≠ [] → length msgs = S (length (popped msgs)).
Proof.
  intros Hne. unfold popped.
  destruct msgs as [|m [|m' msgs]]; [done|done|].
  destruct (saves_system (m :: m' :: msgs)); simpl; lia.
Qed.

(** The loop stops at the first list, in the order of the removals, whose
    prompt cannot be composed or is within budget. *)
Lemma truncation_loop_least B fuel : ∀ msgs prompt,
  compose msgs = Ok prompt →
  length msgs ≤ fuel →
  ∃ k r,
    loop B fuel msgs prompt = Some r ∧
    k ≤ length msgs ∧
    (∀ j, j < k → ∃ p, compose (Nat.iter j popped msgs) = Ok p ∧
                       over B (Nat.iter j popped msgs) p = true) ∧
    match compose (Nat.iter k popped msgs) with
    | Ok prompt' => r = Ok (prompt', Nat.iter k popped msgs) ∧
                    over B (Nat.iter k popped msgs) prompt' = false
    | Error e => r = Error e ∧ 0 < k
    end.
Proof.
  induction fuel as [|fuel IH]; intros msgs prompt Hc Hlen;
    rewrite truncation_loop_unfold; destruct (over B msgs prompt) eqn:E.
  - assert (msgs ≠ []) by (eapply over_nonempty; exact E).
    destruct msgs; [done | simpl in Hlen; lia].
  - exists 0, (Ok (prompt, msgs)). split_and!; [done | lia | intros; lia |].
    cbn [Nat.iter nat_rect]. by rewrite Hc.
  - assert (msgs ≠ []) as Hne by (eapply over_nonempty; exact E).
    pose proof (popped_length _ Hne) as Hpl.
    rewrite truncation_step_eq by done.
    destruct (compose (popped msgs)) as [p1|e] eqn:E1; rewrite ?bind_Ok, ?bind_Error.
    + destruct (IH (popped msgs) p1 E1) as (k & r & Hl & Hk & Hover & Hend); [lia|].
      exists (S k), r. split_and!; [done | lia | |].
      * intros [|j] Hj; [by exists prompt|]. rewrite Nat.iter_succ_r. apply Hover. lia.
      * rewrite Nat.iter_succ_r.
        destruct (compose (Nat.iter k popped (popped msgs))); [done|].
        split; [apply Hend | lia].
    + exists 1, (Error e). split_and!; [done | lia | |].
      * intros j Hj. assert (j = 0) as -> by lia. by exists prompt.
      * cbn [Nat.iter nat_rect]. rewrite E1. split; [done | lia].
  - exists 0, (Ok (prompt, msgs)). split_and!; [done | lia | intros; lia |].
    cbn [Nat.iter nat_rect]. by rewrite Hc.
Qed.

Lemma iter_popped_system sys rest k :
  role sys = system → Nat.iter k popped (sys :: rest) = kept_after sys rest k.
Proof.
  intros Hs. unfold kept_after. induction k as [|k IH].
  - by rewrite decide_True by lia.
  - rewrite Nat.iter_succ, IH.
    destruct (decide (k ≤ length rest)) as [Hk|Hk].
    + destruct (drop k rest) as [|x tl] eqn:E.
      * assert (length rest ≤ k).
        { apply (f_equal length) in E. rewrite length_drop in E. simpl in E. lia. }
        by rewrite decide_False by lia.
      * assert (k < length rest).
        { apply (f_equal length) in E. rewrite length_drop in E. simpl in E. lia. }
        rewrite decide_True by lia. rewrite popped_system_head by done.
        f_equal. replace (S k) with (k + 1) by lia. by rewrite <- drop_drop, E.
    + by rewrite decide_False by lia.
Qed.

(** C3. With a system message in front, the loop removes the other messages
    oldest first and the system message last: the lists it passes through
    are the system message followed by ever shorter tails of the others, and
    the empty list comes only after the system message alone was still over
    budget. Each step removes index 1 when a system message leads more than
    one message and index 0 otherwise, and composes the prompt again from
    what remains; the loop stops at the first of these lists whose prompt
    fits or cannot be composed. *)
Theorem system_message_preserved B fuel sys rest prompt0 :
  role sys = system →
  compose (sys :: rest) = Ok prompt0 →
  length rest < fuel →
  (∀ msgs, msgs ≠ [] →
     truncation_step compose msgs =
     (let remaining :=
        delete (if bool_decide (1 < length msgs ∧ role <$> head msgs = Some system)
                then 1 else 0) msgs in
      prompt ← compose remaining; Ok (remaining, prompt))) ∧
  ∃ k r,
    truncation_loop compose encoded_length B fuel (sys :: rest) prompt0 = Some r ∧
    k ≤ S (length rest) ∧
    (∀ j, j < k → ∃ p, compose (kept_after sys rest j) = Ok p ∧
                       (B < encoded_length p)%Z) ∧
    match compose (kept_after sys rest k) with
    | Ok prompt' =>
        r = Ok (prompt', kept_after sys rest k) ∧
        (kept_after sys rest k = [] ∨ (encoded_length prompt' ≤ B)%Z)
    | Error e => r = Error e ∧ 0 < k
    end.
Proof.
  intros Hs Hc Hfuel. split.
  - intros msgs Hne. rewrite truncation_step_eq by done. cbv zeta.
    replace (popped msgs)
      with (delete (if bool_decide (1 < length msgs ∧ role <$> head msgs = Some system)
                    then 1 else 0) msgs); [done|].
    unfold popped, saves_system.
    destruct (1 <? length msgs) eqn:E1; simpl andb.
    + apply Nat.ltb_lt in E1.
      destruct (decide (role <$> head msgs = Some system)) as [E|E].
      * by rewrite !bool_decide_eq_true_2.
      * rewrite !bool_decide_eq_false_2; [done | done | tauto].
    + apply Nat.ltb_ge in E1. rewrite bool_decide_eq_false_2; [done|]. lia.
  - destruct (truncation_loop_least B fuel (sys :: rest) prompt0 Hc)
      as (k & r & Hl & Hk & Hover & Hend); [simpl; lia|].
    exists k, r. split_and!; [done | done | |].
    + intros j Hj. destruct (Hover j Hj) as (p & Hp & Ho).
      rewrite iter_popped_system in Hp, Ho by done.
      exists p. split; [done|].
      apply andb_true_iff in Ho as [_ Ho]. by apply Z.ltb_lt in Ho.
    + rewrite iter_popped_system in Hend by done.
      destruct (compose (kept_after sys rest k)) as [prompt'|e]; [|done].
      destruct Hend as [-> Ho]. split; [done|].
      unfold over_budget in Ho. destruct (kept_after sys rest k); [by left|right].
      simpl in Ho. by apply Z.ltb_ge in Ho.
Qed.

End TruncationFacts.

Lemma system_message_preserved_witness :
  (∀ msgs, msgs ≠ [] →
     truncation_step (instruct_renderer_of tag_template) msgs =
     (let remaining :=
        delete (if bool_decide (1 < length msgs ∧ role <$> head msgs = Some system)
                then 1 else 0) msgs in
      prompt ← instruct_renderer_of tag_template remaining; Ok (remaining, prompt))) ∧
  ∃ k r,
    truncation_loop (instruct_renderer_of tag_template) sample_length 40 3
      (Message system (py "Be brief.")
       :: [Message user (py "hi"); Message assistant (py "hello")])
      (py "<|system|>Be brief.</s><|user|>hi</s><|assistant|>hello</s>") = Some r ∧
    k ≤ S (length [Message user (py "hi"); Message assistant (py "hello")]) ∧
    (∀ j, j < k →
       ∃ p, instruct_renderer_of tag_template
              (kept_after (Message system (py "Be brief."))
                 [Message user (py "hi"); Message assistant (py "hello")] j) = Ok p ∧
            (40 < sample_length p)%Z) ∧
    match instruct_renderer_of tag_template
            (kept_after (Message system (py "Be brief."))
               [Message user (py "hi"); Message assistant (py "hello")] k) with
    | Ok prompt' =>
        r = Ok (prompt',
                kept_after (Message system (py "Be brief."))
                  [Message user (py "hi"); Message assistant (py "hello")] k) ∧
        (kept_after (Message system (py "Be brief."))
           [Message user (py "hi"); Message assistant (py "hello")] k = [] ∨
         (sample_length prompt' ≤ 40)%Z)
    | Error e => r = Error e ∧ 0 < k
    end.
Proof.
  apply (system_message_preserved (instruct_renderer_of tag_template) sample_length 40 3
           (Message system (py "Be brief."))
           [Message user (py "hi"); Message assistant (py "hello")]
           (py "<|system|>Be brief.</s><|user|>hi</s><|assistant|>hello</s>")).
  - reflexivity.
  - reflexivity.
  - simpl. lia.
Defined.

(** The run at budget 40: two messages are removed, the system message
    stays. *)
Lemma system_message_preserved_run :
  truncation_loop (instruct_renderer_of tag_template) sample_length 40 3
    sample_messages (py "<|system|>Be brief.</s><|user|>hi</s><|assistant|>hello</s>")
  = Some (Ok (py "<|system|>Be brief.</s>", [Message system (py "Be brief.")])).
Proof. reflexivity. Qed.

Lemma truncation_monotone_witness :
  ∃ prompt2 msgs2,
    truncation_loop (instruct_renderer_of tag_template) sample_length 40 3
      sample_messages (py "<|system|>Be brief.</s><|user|>hi</s><|assistant|>hello</s>")
    = Some (Ok (prompt2, msgs2)) ∧
    length (@nil message) ≤ length msgs2.
Proof.
  apply (truncation_monotone (instruct_renderer_of tag_template) sample_length 20 40 3
           sample_messages
           (py "<|system|>Be brief.</s><|user|>hi</s><|assistant|>hello</s>") [] []).
  - reflexivity.
  - reflexivity.
Defined.

(** ** The message sequencer *)

Section Sequencer.
Import Py.

Lemma insert_at_length {A} (pre acc : list A) x :
  Py.insert (length pre) x (pre ++ acc) = pre ++ x :: acc.
Proof. unfold Py.insert. by rewrite take_app_length, drop_app_length. Qed.

(** One pass of the [for] loop puts the turn, user first, right behind the
    messages that were there before the loop. *)
Lemma insert_turn pre acc turn :
  (let user_msg := strip turn.1 in
   let assistant_msg := strip turn.2 in
   let messages :=
     if decide (assistant_msg ≠ [])
     then Py.insert (length pre) (Message assistant assistant_msg) (pre ++ acc)
     else pre ++ acc in
   if decide (user_msg ∉ [[]; BEGIN_VISIBLE_CHAT])
   then Py.insert (length pre) (Message user user_msg) messages
   else messages)
  = pre ++ turn_messages turn ++ acc.
Proof.
  cbv zeta. unfold turn_messages.
  destruct (decide (strip turn.2 ≠ [])) as [Ha|Ha].
  - rewrite (bool_decide_eq_true_2 _ Ha), insert_at_length.
    destruct (decide (strip turn.1 ∉ [[]; BEGIN_VISIBLE_CHAT])) as [Hu|Hu].
    + rewrite bool_decide_eq_true_2, insert_at_length; [done|].
      rewrite !not_elem_of_cons in Hu. tauto.
    + rewrite bool_decide_eq_false_2; [done|].
      intros [? ?]. apply Hu. rewrite !not_elem_of_cons. split_and!; try done.
      apply not_elem_of_nil.
  - rewrite (bool_decide_eq_false_2 _ Ha).
    destruct (decide (strip turn.1 ∉ [[]; BEGIN_VISIBLE_CHAT])) as [Hu|Hu].
    + rewrite bool_decide_eq_true_2, insert_at_length; [done|].
      rewrite !not_elem_of_cons in Hu. tauto.
    + rewrite bool_decide_eq_false_2; [by rewrite app_nil_r|].
      intros [? ?]. apply Hu. rewrite !not_elem_of_cons. split_and!; try done.
      apply not_elem_of_nil.
Qed.

Lemma insert_turns (f : list message -> str * str -> list message) pre :
  (∀ acc turn, f (pre ++ acc) turn = pre ++ turn_messages turn ++ acc) →
  ∀ l acc, fold_left f l (pre ++ acc)
           = pre ++ concat (map turn_messages (reverse l)) ++ acc.
Proof.
  intros Hf l. induction l as [|turn l IH]; intros acc; [done|].
  simpl fold_left. rewrite Hf, IH.
  rewrite reverse_cons, map_app, concat_app. simpl.
  by rewrite app_nil_r, <- !app_assoc.
Qed.

(** C2. The list [generate_chat_prompt] builds before truncation is the
    optional system message, then each turn of the history oldest first as
    its user message followed by its assistant message, each only when its
    stripped text qualifies, then the optional trailing user message. The
    system message holds the custom system message in instruct mode, and
    otherwise the context after four passes that replace every [{{user}}],
    then every [{{char}}], then every [<USER>], then every [<BOT>] by the
    display name it stands for; it is present exactly when the text as the
    state holds it is not blank. *)
Theorem build_messages_spec user_input state kwargs :
  build_messages user_input state kwargs = sequencer_spec user_input state kwargs.
Proof.
  unfold build_messages, sequencer_spec. cbv zeta.
  set (hist := internal (default (history state) (kw_history kwargs))).
  match goal with |- context [fold_left _ (reverse hist) ?pre] =>
    set (messages0 := pre)
  end.
  match goal with |- context [fold_left ?f (reverse hist) messages0] =>
    set (body := f)
  end.
  assert (messages0 = system_spec state) as Hpre.
  { subst messages0. unfold system_spec.
    rewrite <- ReplaceFacts.replace_character_names_substituted.
    destruct (mode state); simpl; repeat case_decide; repeat case_bool_decide; done. }
  assert (fold_left body (reverse hist) messages0
          = messages0 ++ concat (map turn_messages hist)) as ->.
  { pose proof (insert_turns body messages0
                  (fun acc turn => insert_turn messages0 acc turn)
                  (reverse hist) []) as Hfold.
    by rewrite reverse_involutive, !app_nil_r in Hfold. }
  rewrite <- Hpre. unfold trailing_part.
  destruct (decide (strip user_input ≠ [])) as [Hu|Hu].
  - rewrite (bool_decide_eq_true_2 _ Hu).
    destruct (impersonate kwargs), (_continue kwargs); simpl;
      first [ rewrite bool_decide_eq_true_2 by done; by rewrite <- app_assoc
            | rewrite bool_decide_eq_false_2 by (by intros (_ & ? & ?));
              by rewrite app_nil_r ].
  - rewrite (bool_decide_eq_false_2 _ Hu). simpl.
    rewrite bool_decide_eq_false_2 by (by intros (? & _)). by rewrite app_nil_r.
Qed.

(** C2 fails as stated: the test for a blank text reads the context before
    the names are put in, so a context that is blank only afterwards still
    gives a system message, a blank one. *)
Lemma blank_system_message_is_built :
  let st := mkState chat [] (py "Bot") (py "{{user}}") [] (py "chat") (py "instruct")
              (py "Continue the chat: <|prompt|>") (mkHistory [] []) None in
  substituted (name1 st) (name2 st) (context st) = [] ∧
  strip (substituted (name1 st) (name2 st) (context st)) = [] ∧
  build_messages [] st (mkKwargs false false false None) = [Message system []].
Proof. repeat split; reflexivity. Qed.

(** The passes follow one another: a placeholder that a display name brings
    in is replaced by a later pass. *)
Example substituted_name_with_placeholder :
  replace_character_names (py "I am {{user}}.") (py "{{char}}") (py "Bot")
  = py "I am Bot." ∧
  substituted (py "{{char}}") (py "Bot") (py "I am {{user}}.") = py "I am Bot.".
Proof. split; reflexivity. Qed.

(** The scenario of the specification: the turn that only marks the start of
    the visible chat contributes its greeting alone, and a blank input adds
    nothing. *)
Example begin_marker_turn_is_dropped :
  build_messages [] (sample_state chat [(BEGIN_VISIBLE_CHAT, py "Hello!")])
    (mkKwargs false false false None)
  = [Message assistant (py "Hello!")].
Proof. reflexivity. Qed.

End Sequencer.

(** ** The composer: [remove_extra_bos] and [make_prompt] *)

Section Composer.
Import Py PyFacts.

Variable bot_prefix : str -> State -> str.

(** C5, at the input where the code departs from it: a [<s>] standing
    behind a [<|startoftext|>] survives one pass, so the result still
    begins with a marker and a second pass changes it. *)
Theorem remove_extra_bos_leaves_marker :
  remove_extra_bos (py "<|startoftext|><s>hello") = py "<s>hello" ∧
  startswith (remove_extra_bos (py "<|startoftext|><s>hello")) (py "<s>") = true ∧
  remove_extra_bos (remove_extra_bos (py "<|startoftext|><s>hello")) = py "hello" ∧
  remove_extra_bos (remove_extra_bos (py "<|startoftext|><s>hello"))
  ≠ remove_extra_bos (py "<|startoftext|><s>hello").
Proof. repeat split; done. Qed.

Lemma getitem_last_nonempty {A} (l : list A) :
  l ≠ [] → ∃ x, getitem l (-1) = Ok x.
Proof.
  intros Hl. unfold getitem. change (-1 <? 0)%Z with true. cbv iota.
  assert (0 < length l) by (destruct l; [done | simpl; lia]).
  destruct (Z.ltb_spec (Z.of_nat (length l) + -1) 0); [lia|].
  destruct (l !! Z.to_nat (Z.of_nat (length l) + -1)) as [x|] eqn:E; [eauto|].
  apply lookup_ge_None in E. lia.
Qed.

(** C10. With an empty probed suffix, [prompt[:-len(suffix)]] is
    [prompt[:0]]: in chat and instruct mode under continuation, and at the
    end of every chat-instruct composition, the composed prompt is the
    empty string. *)
Theorem empty_suffix_collapses st imp cont render it ir msgs rendered pfx :
  (mode st = chat_instruct ∨ cont = true) →
  render (if bool_decide (mode st = chat_instruct) && cont
          then slice_to (-1) msgs else msgs) = Ok rendered →
  (mode st = chat_instruct →
     (∃ pr, get_generation_prompt render imp (negb cont) = Ok pr) ∧
     (cont = true → msgs ≠ []) ∧
     (∀ ms, ∃ r, it (RenderKwargs ms None None None) = Ok r)) →
  (if decide (mode st = chat_instruct)
   then get_generation_prompt ir false true
   else get_generation_prompt render imp true) = Ok (pfx, []) →
  make_prompt bot_prefix st imp cont render it ir msgs = Ok [].
Proof.
  intros Hcase Hrender Hinner Hprobe. unfold make_prompt.
  destruct (decide (mode st = chat_instruct)) as [Hm|Hm].
  - rewrite (bool_decide_eq_true_2 _ Hm) in *.
    destruct (Hinner Hm) as ((pr & Hpr) & Hmsgs & Hit).
    destruct cont; simpl negb in Hpr; simpl andb in *.
    + rewrite Hrender, bind_Ok, Hpr, bind_Ok.
      destruct (getitem_last_nonempty msgs (Hmsgs eq_refl)) as [m ->].
      rewrite !bind_Ok.
      cbv zeta.
      match goal with |- context [it (RenderKwargs ?ms None None None)] =>
        destruct (Hit ms) as [r Hr]; rewrite Hr end.
      by rewrite bind_Ok, Hprobe.
    + rewrite Hrender, bind_Ok, Hpr, !bind_Ok.
      cbv zeta.
      match goal with |- context [it (RenderKwargs ?ms None None None)] =>
        destruct (Hit ms) as [r Hr]; rewrite Hr end.
      by rewrite bind_Ok, Hprobe.
  - rewrite (bool_decide_eq_false_2 _ Hm) in *. simpl andb in *.
    destruct Hcase as [?| ->]; [done|].
    by rewrite Hrender, bind_Ok, Hprobe.
Qed.

Lemma startswith_nil s : startswith s [] = true.
Proof. by destruct s. Qed.

Lemma startswith_app_keep tok u x :
  startswith tok u && negb (bool_decide (u = tok)) = false →
  startswith (u ++ x) tok = startswith u tok.
Proof.
  revert u. induction tok as [|c tok IH]; intros u H.
  - by rewrite !startswith_nil.
  - destruct u as [|d u]; [done|]. simpl in *.
    destruct (decide (c = d)) as [->|Hne]; [|done].
    apply IH. destruct (decide (d = d)); [|done].
    destruct (startswith tok u); [|done]. simpl in *.
    apply negb_false_iff, bool_decide_eq_true in H. injection H as ->.
    by rewrite bool_decide_eq_true_2.
Qed.

Lemma strip_leading_no_match n tok u :
  startswith u tok = false → strip_leading n tok u = u.
Proof. intros H. destruct n; simpl; by rewrite ?H. Qed.

(** Text appended to a prompt stays in place under the [while] loop, as
    long as what the loop leaves cannot be completed to the marker. *)
Lemma strip_leading_app tok n m u x :
  tok ≠ [] → length u ≤ n → length (u ++ x) ≤ m →
  startswith tok (strip_leading n tok u)
    && negb (bool_decide (strip_leading n tok u = tok)) = false →
  strip_leading m tok (u ++ x) = strip_leading n tok u ++ x.
Proof.
  intros Htok. revert m u. induction n as [|n IH]; intros m u Hn Hm H.
  - destruct u; [|simpl in Hn; lia]. simpl in H.
    rewrite startswith_nil in H. simpl in H.
    apply negb_false_iff, bool_decide_eq_true in H. done.
  - simpl in H |- *. destruct (startswith u tok) eqn:E.
    + apply startswith_prefix in E as [u' ->].
      rewrite slice_from_len, drop_app_length in H |- *.
      rewrite !length_app in Hn. rewrite !length_app in Hm.
      assert (0 < length tok) by (destruct tok; [done | simpl; lia]).
      destruct m as [|m]; [lia|]. simpl.
      rewrite <- app_assoc, startswith_app.
      rewrite slice_from_len, drop_app_length.
      apply IH; [lia | rewrite length_app; lia | done].
    + rewrite strip_leading_no_match; [done|].
      by rewrite startswith_app_keep.
Qed.

Lemma strip_leading_done n tok p :
  tok ≠ [] → length p ≤ n → startswith (strip_leading n tok p) tok = false.
Proof.
  intros Htok. revert p. induction n as [|n IH]; intros p Hn.
  - destruct p; [|simpl in Hn; lia]. simpl. by destruct tok.
  - simpl. destruct (startswith p tok) eqn:E; [|done].
    apply IH. apply startswith_prefix in E as [p' ->].
    rewrite slice_from_len, drop_app_length. rewrite length_app in Hn.
    destruct tok; [done | simpl in Hn; lia].
Qed.

Lemma remove_extra_bos_eq p :
  remove_extra_bos p =
  let u := strip_leading (length p) (py "<s>") p in
  strip_leading (length u) (py "<|startoftext|>") u.
Proof. done. Qed.

Lemma remove_extra_bos_app body x :
  cut_marker (remove_extra_bos body) = false →
  remove_extra_bos (body ++ x) = remove_extra_bos body ++ x.
Proof.
  rewrite !remove_extra_bos_eq. cbv zeta.
  set (u := strip_leading (length body) (py "<s>") body).
  set (c := strip_leading (length u) (py "<|startoftext|>") u).
  unfold cut_marker, bos_tokens. simpl existsb. rewrite orb_false_r.
  intros [H1 H2]%orb_false_elim.
  assert (strip_leading (length (body ++ x)) (py "<s>") (body ++ x) = u ++ x) as ->.
  { apply strip_leading_app; [done..|]. fold u.
    destruct (startswith u (py "<|startoftext|>")) eqn:E.
    - apply startswith_prefix in E as [u' ->]. done.
    - subst c. by rewrite strip_leading_no_match in H1. }
  by apply strip_leading_app.
Qed.

(** What one pass does achieve: no [<|startoftext|>] is left in front, and
    the pass is idempotent on every prompt whose result does not begin with
    [<s>]. *)
Lemma remove_extra_bos_second_marker p :
  startswith (remove_extra_bos p) (py "<|startoftext|>") = false.
Proof. rewrite remove_extra_bos_eq. by apply strip_leading_done. Qed.

Lemma remove_extra_bos_idempotent_when p :
  startswith (remove_extra_bos p) (py "<s>") = false →
  remove_extra_bos (remove_extra_bos p) = remove_extra_bos p.
Proof.
  intros H. rewrite (remove_extra_bos_eq (remove_extra_bos p)). cbv zeta.
  rewrite (strip_leading_no_match _ (py "<s>")) by done.
  apply strip_leading_no_match, remove_extra_bos_second_marker.
Qed.

(** C4, as the code has it. In chat and instruct mode, when the rendering
    ends with the non-empty probed suffix and the continuation prompt is not a
    strict prefix of a beginning-of-text marker, the continuation prompt is
    the rendering without that suffix, and the non-continuation prompt is the
    continuation prompt, the omitted suffix and then the generation prefix
    that only non-continuation mode appends. *)
Theorem continuation_resumes_before_suffix st imp render it ir msgs body prefix suffix :
  mode st ≠ chat_instruct →
  render msgs = Ok (body ++ suffix) →
  get_generation_prompt render imp true = Ok (prefix, suffix) →
  suffix ≠ [] →
  cut_marker (remove_extra_bos body) = false →
  ∃ continued,
    make_prompt bot_prefix st imp true render it ir msgs = Ok continued ∧
    continued = remove_extra_bos body ∧
    make_prompt bot_prefix st imp false render it ir msgs
    = Ok (continued ++ suffix ++
          (if bool_decide (mode st = chat) && negb imp
           then bot_prefix prefix st else prefix)).
Proof.
  intros Hm Hrender Hprobe Hsuffix Hcut.
  exists (remove_extra_bos body). unfold make_prompt.
  rewrite (bool_decide_eq_false_2 _ Hm). simpl andb.
  destruct (decide (mode st = chat_instruct)) as [?|_]; [done|].
  rewrite Hrender, !bind_Ok, Hprobe, !bind_Ok. simpl snd. simpl fst.
  split; [|split; [done|]].
  - rewrite slice_to_neg_len.
    destruct (decide (length suffix = 0)) as [E|_].
    { by destruct suffix. }
    rewrite length_app, Nat.add_sub, take_app_length. done.
  - cbv zeta. rewrite <- app_assoc. by rewrite remove_extra_bos_app.
Qed.

End Composer.

Lemma empty_suffix_collapses_witness :
  make_prompt (fun p _ => p) (sample_state chat []) false true
    (chat_renderer_of open_template (sample_state chat []))
    open_template (instruct_renderer_of open_template)
    [Message user (py "hi"); Message assistant (py "hello")] = Ok [] ∧
  make_prompt (fun p _ => p) (sample_state chat_instruct []) false false
    (chat_renderer_of tag_template (sample_state chat_instruct []))
    open_template (instruct_renderer_of open_template)
    [Message user (py "hi"); Message assistant (py "hello")] = Ok [].
Proof.
  split.
  - apply (empty_suffix_collapses (fun p _ => p) (sample_state chat []) false true
             (chat_renderer_of open_template (sample_state chat []))
             open_template (instruct_renderer_of open_template)
             [Message user (py "hi"); Message assistant (py "hello")]
             (py "user: hiassistant: hello") (py "assistant:")).
    + right. reflexivity.
    + reflexivity.
    + intros H. discriminate H.
    + reflexivity.
  - apply (empty_suffix_collapses (fun p _ => p) (sample_state chat_instruct [])
             false false
             (chat_renderer_of tag_template (sample_state chat_instruct []))
             open_template (instruct_renderer_of open_template)
             [Message user (py "hi"); Message assistant (py "hello")]
             (py "<|user|>hi</s><|assistant|>hello</s>") (py "assistant:")).
    + left. reflexivity.
    + reflexivity.
    + intros _. split; [eexists; reflexivity|]. split; [intros H; discriminate H|].
      intros ms. eexists. reflexivity.
    + reflexivity.
Defined.

Lemma continuation_resumes_before_suffix_witness :
  ∃ continued,
    make_prompt (fun p _ => p) (sample_state chat []) false true
      (chat_renderer_of tag_template (sample_state chat []))
      tag_template (instruct_renderer_of tag_template)
      [Message user (py "hi"); Message assistant (py "hello")] = Ok continued ∧
    continued = remove_extra_bos (py "<|user|>hi</s><|assistant|>hello") ∧
    make_prompt (fun p _ => p) (sample_state chat []) false false
      (chat_renderer_of tag_template (sample_state chat []))
      tag_template (instruct_renderer_of tag_template)
      [Message user (py "hi"); Message assistant (py "hello")]
    = Ok (continued ++ py "</s>" ++ py "<|assistant|>").
Proof.
  apply (continuation_resumes_before_suffix (fun p _ => p) (sample_state chat [])
           false (chat_renderer_of tag_template (sample_state chat []))
           tag_template (instruct_renderer_of tag_template)
           [Message user (py "hi"); Message assistant (py "hello")]
           (py "<|user|>hi</s><|assistant|>hello") (py "<|assistant|>") (py "</s>")).
  - discriminate.
  - reflexivity.
  - reflexivity.
  - discriminate.
  - reflexivity.
Defined.

(** C4 fails as stated: the continuation prompt followed by the omitted
    suffix lacks the generation prefix of the non-continuation prompt. *)
Lemma continuation_plus_suffix_differs :
  let st := sample_state chat [] in
  let render := chat_renderer_of tag_template st in
  let msgs := [Message user (py "hi"); Message assistant (py "hello")] in
  get_generation_prompt render false true = Ok (py "<|assistant|>", py "</s>") ∧
  make_prompt (fun p _ => p) st false true render tag_template
    (instruct_renderer_of tag_template) msgs
  = Ok (py "<|user|>hi</s><|assistant|>hello") ∧
  make_prompt (fun p _ => p) st false false render tag_template
    (instruct_renderer_of tag_template) msgs
  = Ok (py "<|user|>hi</s><|assistant|>hello</s><|assistant|>") ∧
  py "<|user|>hi</s><|assistant|>hello" ++ py "</s>"
  ≠ py "<|user|>hi</s><|assistant|>hello</s><|assistant|>".
Proof. repeat split; done. Qed.

(** ** The stopping strings *)

Section StoppingStrings.

Variable from_string : str -> result template.

Lemma probe_renderers_eq render rs acc :
  probe_renderers (render :: rs) acc =
  (combos ← cross_combinations render; probe_renderers rs (acc ++ combos)).
Proof.
  simpl. unfold cross_combinations.
  destruct (get_generation_prompt render false true) as [[pb sb]|e]; [|done].
  rewrite !bind_Ok.
  destruct (get_generation_prompt render true true) as [[pu su]|e]; done.
Qed.

Lemma probe_renderers_all rs acc :
  probe_renderers rs acc = (combos ← all_combinations rs; Ok (acc ++ combos)).
Proof.
  revert acc. induction rs as [|render rs IH]; intros acc.
  - simpl. by rewrite app_nil_r.
  - rewrite probe_renderers_eq. simpl all_combinations.
    destruct (cross_combinations render) as [combos|e]; [|done].
    rewrite !bind_Ok, IH.
    destruct (all_combinations rs) as [rest|e]; [|done].
    by rewrite !bind_Ok, app_assoc.
Qed.

Local Ltac mode_absurd H :=
  exfalso;
  first [ apply H; repeat constructor
        | repeat (apply elem_of_cons in H as [H|H]; [discriminate H|]);
          by apply elem_of_nil in H ].

Lemma get_stopping_strings_eq state :
  get_stopping_strings from_string state =
  (renderers ← active_renderers from_string state;
   stopping ← probe_renderers renderers [];
   Ok (elements (list_to_set (stopping ++ extra_stopping_strings state) : gset str),
       match stopping_strings state with
       | Some (StopList _) =>
           mkState (mode state) (name1 state) (name2 state) (context state)
                   (custom_system_message state) (chat_template_str state)
                   (instruction_template_str state) (chat_instruct_command state)
                   (history state) None
       | _ => state
       end)).
Proof.
  unfold get_stopping_strings, active_renderers, extra_stopping_strings.
  assert (∀ a : list str, a = a ++ []) as Hnil by (intros; by rewrite app_nil_r).
  destruct (mode state) eqn:Hmode.
  - destruct (decide (chat ∈ [instruct; chat_instruct])) as [H|_];
      [mode_absurd H|].
    rewrite bind_Ok.
    destruct (decide (chat ∈ [chat; chat_instruct])) as [_|H];
      [|mode_absurd H].
    destruct (from_string (chat_template_str state)) as [t|e]; [|done].
    rewrite !bind_Ok.
    destruct (probe_renderers _ []) as [stopping|e]; [|done]. rewrite !bind_Ok.
    destruct (stopping_strings state) as [[extra|]|]; simpl; by rewrite <- ?Hnil.
  - destruct (decide (instruct ∈ [instruct; chat_instruct])) as [_|H];
      [|mode_absurd H].
    destruct (from_string (instruction_template_str state)) as [t|e]; [|done].
    rewrite !bind_Ok.
    destruct (decide (instruct ∈ [chat; chat_instruct])) as [H|_];
      [mode_absurd H|].
    rewrite !bind_Ok.
    destruct (probe_renderers _ []) as [stopping|e]; [|done]. rewrite !bind_Ok.
    destruct (stopping_strings state) as [[extra|]|]; simpl; by rewrite <- ?Hnil.
  - destruct (decide (chat_instruct ∈ [instruct; chat_instruct])) as [_|H];
      [|mode_absurd H].
    destruct (from_string (instruction_template_str state)) as [ti|e]; [|done].
    rewrite !bind_Ok.
    destruct (decide (chat_instruct ∈ [chat; chat_instruct])) as [_|H];
      [|mode_absurd H].
    destruct (from_string (chat_template_str state)) as [tc|e]; [|done].
    rewrite !bind_Ok.
    destruct (probe_renderers _ []) as [stopping|e]; [|done]. rewrite !bind_Ok.
    destruct (stopping_strings state) as [[extra|]|]; simpl; by rewrite <- ?Hnil.
Qed.

(** C8. [get_stopping_strings] probes every renderer active in the mode for
    both roles and returns, without duplicates, exactly the four
    cross-combinations of each of them together with the extra stopping
    strings of the state; it raises exactly when a template of the mode does
    not compile or such a probe raises. *)
Theorem get_stopping_strings_spec state :
  match (renderers ← active_renderers from_string state; all_combinations renderers) with
  | Ok combos =>
      ∃ l state',
        get_stopping_strings from_string state = Ok (l, state') ∧
        NoDup l ∧
        ∀ s, s ∈ l ↔ s ∈ combos ∨ s ∈ extra_stopping_strings state
  | Error e => get_stopping_strings from_string state = Error e
  end.
Proof.
  rewrite get_stopping_strings_eq.
  destruct (active_renderers from_string state) as [renderers|e]; [|done].
  rewrite !bind_Ok, probe_renderers_all.
  destruct (all_combinations renderers) as [combos|e]; [|done].
  rewrite !bind_Ok. eexists _, _. split; [done|]. split; [apply NoDup_elements|].
  intros s. by rewrite elem_of_elements, elem_of_list_to_set, elem_of_app.
Qed.

End StoppingStrings.

(** ** The whole of [generate_chat_prompt] *)

Section PromptBuilder.

Variable from_string : str -> result template.
Variable bot_prefix : str -> State -> str.
Variable get_encoded_length : str -> Z.
Variable get_max_prompt_length : State -> Z.

(** The call always ends: it returns a prompt or raises, and the fuel
    [len(messages)] given to the loop is never used up. *)
Lemma generate_chat_prompt_ends user_input state kwargs :
  ∃ r, generate_chat_prompt from_string bot_prefix get_encoded_length
         get_max_prompt_length user_input state kwargs = Some r.
Proof.
  unfold generate_chat_prompt.
  destruct (from_string (chat_template_str state)) as [ct|e]; [|eauto].
  destruct (from_string (instruction_template_str state)) as [it|e]; [|eauto].
  cbv zeta.
  destruct (make_prompt _ _ _ _ _ _ _ (build_messages user_input state kwargs))
    as [prompt|e]; [|eauto].
  edestruct truncation_loop_terminates as [r ->]; [reflexivity|].
  simpl. eauto.
Qed.

End PromptBuilder.

(** C9, at the input where the code departs from it: in chat-instruct mode
    under continuation, a budget that no prompt meets empties the list, and
    composing the empty list raises [IndexError] at [messages[-1]]; the same
    history in chat mode returns the prompt of the empty list. *)
Theorem empty_list_raises_in_chat_instruct_continuation :
  generate_chat_prompt (sample_from_string tag_template tag_template) (fun p _ => p)
    sample_length (fun _ => 0%Z) []
    (sample_state chat_instruct [(py "hi", py "hello")]) (mkKwargs false true false None)
  = Some (Error IndexError) ∧
  make_prompt (fun p _ => p) (sample_state chat_instruct [(py "hi", py "hello")])
    false true
    (chat_renderer_of tag_template (sample_state chat_instruct [(py "hi", py "hello")]))
    tag_template (instruct_renderer_of tag_template) []
  = Error IndexError ∧
  generate_chat_prompt (sample_from_string tag_template tag_template) (fun p _ => p)
    sample_length (fun _ => 0%Z) []
    (sample_state chat [(py "hi", py "hello")]) (mkKwargs false true false None)
  = Some (Ok (Prompt [])).
Proof. repeat split; vm_compute; reflexivity. Qed.

(** * Further properties of the prompt path *)

Section ProbeFurther.
Import Py PyFacts.

Lemma split_scan_two n sep s i :
  sep ≠ [] → length s ≤ n → find sep s = Some i →
  ∃ x y l, split_scan n sep s = x :: y :: l.
Proof.
  intros Hsep Hn F. destruct n as [|n].
  - destruct s; [|simpl in Hn; lia]. by rewrite find_nil_nonempty in F.
  - rewrite split_scan_S, F.
    destruct (split_scan_head n sep (drop (i + length sep) s)) as (y & l & ->).
    eauto.
Qed.

Lemma split_getitem_1 sep s :
  sep ≠ [] → contains sep s = true → ∃ x, split sep s ≫= (fun l => getitem l 1%Z) = Ok x.
Proof.
  intros Hsep [i F]%bool_decide_eq_true. rewrite split_nonempty, bind_Ok by done.
  destruct (split_scan_two (length s) sep s i) as (x & y & l & ->); [done..|].
  by exists y.
Qed.

(** X1. Once the renderer has rendered the two sentinel messages, the probe
    returns a (prefix, suffix) pair exactly when both sentinels occur in the
    rendering. *)
Theorem probe_returns_iff_sentinels render imp strip prompt :
  render (probe_messages imp) = Ok prompt →
  (∃ pair, get_generation_prompt render imp strip = Ok pair) ↔
  contains SENTINEL_1 prompt = true ∧ contains SENTINEL_2 prompt = true.
Proof.
  intros Hr. split.
  - intros [pair Hp]. rewrite (Prober.get_generation_prompt_unfold _ _ _ _ Hr) in Hp.
    destruct (contains SENTINEL_1 prompt) eqn:C1.
    + split; [done|]. destruct (contains SENTINEL_2 prompt) eqn:C2; [done|].
      apply contains_false in C2.
      destruct (split SENTINEL_1 prompt ≫= (fun l => getitem l 1%Z))
        as [x|e]; [|done].
      rewrite bind_Ok, (split_nonempty SENTINEL_2 x) in Hp by done.
      destruct (split_scan_head (length x) SENTINEL_2 x) as (y & l & E).
      rewrite E, !bind_Ok in Hp.
      by rewrite (split_None SENTINEL_2 prompt) in Hp.
    + apply contains_false in C1.
      by rewrite (split_None SENTINEL_1 prompt) in Hp.
  - intros [C1 C2]. rewrite (Prober.get_generation_prompt_unfold _ _ _ _ Hr).
    destruct (split_getitem_1 SENTINEL_1 prompt) as [x ->]; [done..|].
    rewrite bind_Ok, (split_nonempty SENTINEL_2 x) by done.
    destruct (split_scan_head (length x) SENTINEL_2 x) as (y & l & ->).
    rewrite !bind_Ok. change (getitem (y :: l) 0%Z) with (Ok y : result str).
    rewrite bind_Ok.
    destruct (split_getitem_1 SENTINEL_2 prompt) as [z E]; [done..|].
    unfold str in *. rewrite E, bind_Ok. eauto.
Qed.

End ProbeFurther.

Lemma probe_returns_iff_sentinels_witness :
  instruct_renderer_of tag_template (probe_messages false)
  = Ok (py "<|assistant|><<|user-message-1|>></s><|assistant|><<|user-message-2|>></s>") ∧
  ((∃ pair, get_generation_prompt (instruct_renderer_of tag_template) false true = Ok pair) ↔
   Py.contains SENTINEL_1
     (py "<|assistant|><<|user-message-1|>></s><|assistant|><<|user-message-2|>></s>") = true ∧
   Py.contains SENTINEL_2
     (py "<|assistant|><<|user-message-1|>></s><|assistant|><<|user-message-2|>></s>") = true).
Proof.
  split; [reflexivity|].
  apply (probe_returns_iff_sentinels (instruct_renderer_of tag_template) false true
           (py "<|assistant|><<|user-message-1|>></s><|assistant|><<|user-message-2|>></s>")).
  reflexivity.
Defined.

Section TruncationFurther.
Import Py.

Variable compose : list message -> result str.
Variable encoded_length : str -> Z.

(** X2. For every composing function, length function, budget and start
    prompt the loop ends within [len(messages)] iterations, each of which
    removes exactly one message: it returns a prompt that is within budget or
    left without messages, or it raises what the composing function raised. *)
Theorem truncation_loop_total B msgs prompt :
  (∃ r, truncation_loop compose encoded_length B (length msgs) msgs prompt = Some r ∧
        match r with
        | Ok (prompt', msgs') =>
            (msgs' = [] ∨ (encoded_length prompt' ≤ B)%Z) ∧ length msgs' ≤ length msgs
        | Error e => ∃ msgs', compose msgs' = Error e
        end) ∧
  (∀ m m' p', m ≠ [] → truncation_step compose m = Ok (m', p') →
              length m = S (length m')).
Proof.
  split; [|apply truncation_step_length].
  destruct (truncation_loop_terminates compose encoded_length B (length msgs) msgs prompt)
    as [r Hr]; [done|].
  exists r. split; [done|]. destruct r as [[prompt' msgs']|e].
  - apply truncation_loop_returns in Hr as (Hover & Hlen & _). split; [|done].
    unfold over_budget in Hover. destruct msgs'; [by left|right].
    simpl in Hover. apply Z.ltb_ge in Hover. done.
  - by eapply truncation_loop_raises.
Qed.

Lemma popped_cases m :
  m ≠ [] →
  (∃ x y tl, m = x :: y :: tl ∧ role x = system ∧ popped m = x :: tl)
  ∨ popped m = drop 1 m.
Proof.
  intros Hm. destruct m as [|x [|y tl]]; [done | by right |].
  destruct (decide (role x = system)) as [Hx|Hx].
  - left. exists x, y, tl. split_and!; [done..|]. by apply popped_system_head.
  - right. unfold popped, saves_system. simpl.
    rewrite bool_decide_eq_false_2; [done|]. by intros [= ?].
Qed.

Lemma loop_step_newest B msgs prompt s :
  rtc (loop_step compose encoded_length B) (msgs, prompt) s → newest_kept msgs s.1.
Proof.
  revert s. apply rtc_ind_r.
  - exists 0. by left.
  - intros [m p] [m' p'] _ [Hover Hstep] [k IH]. simpl in *.
    apply over_nonempty in Hover.
    apply truncation_step_Ok in Hstep as [-> _]; [|done].
    destruct (popped_cases m Hover) as [(x & y & tl & Hm & Hx & ->)| ->].
    + destruct IH as [IH|(j & sys & ? & ? & ? & IH)]; rewrite Hm in IH.
      * exists (k + 2). right. exists k, x. split_and!; [lia| |done|].
        -- rewrite <- (Nat.add_0_r k), <- lookup_drop, <- IH. done.
        -- by rewrite <- drop_drop, <- IH.
      * injection IH as -> IH. exists (k + 1). right. exists j, sys.
        split_and!; [lia|done..|]. by rewrite <- drop_drop, <- IH.
    + destruct IH as [->|(j & sys & ? & ? & ? & ->)].
      * exists (k + 1). left. by rewrite drop_drop.
      * exists k. by left.
Qed.

(** X3. Truncation only drops messages, oldest first: what the loop returns
    is a tail of the list it was given, or such a tail behind one system
    message that stood before it in that list. *)
Theorem truncation_keeps_newest B fuel msgs prompt prompt' msgs' :
  truncation_loop compose encoded_length B fuel msgs prompt = Some (Ok (prompt', msgs')) →
  ∃ k, msgs' = drop k msgs ∨
       ∃ j sys, j < k ∧ msgs !! j = Some sys ∧ role sys = system ∧
                msgs' = sys :: drop k msgs.
Proof.
  intros H. apply truncation_loop_reaches in H.
  exact (loop_step_newest _ _ _ _ H).
Qed.

End TruncationFurther.

Lemma truncation_keeps_newest_witness :
  ∃ k, [Message system (py "Be brief."); Message assistant (py "hello")]
       = drop k sample_messages ∨
       ∃ j sys, j < k ∧ sample_messages !! j = Some sys ∧ role sys = system ∧
                [Message system (py "Be brief."); Message assistant (py "hello")]
                = sys :: drop k sample_messages.
Proof.
  apply (truncation_keeps_newest (instruct_renderer_of tag_template) sample_length 50 3
           sample_messages
           (py "<|system|>Be brief.</s><|user|>hi</s><|assistant|>hello</s>")
           (py "<|system|>Be brief.</s><|assistant|>hello</s>")).
  reflexivity.
Defined.

Section PromptBuilderFurther.
Import Py PyFacts.

Variable from_string : str -> result template.
Variable bot_prefix : str -> State -> str.
Variable get_encoded_length : str -> Z.
Variable get_max_prompt_length : State -> Z.


(** X5. In chat-instruct mode under continuation, composing an empty message
    list raises [IndexError] as soon as the chat renderer renders the empty
    list and its probe returns: [messages[-1]] has nothing to index. *)
Theorem make_prompt_nothing_to_continue state imp render it ir rendered pair :
  mode state = chat_instruct →
  render [] = Ok rendered →
  get_generation_prompt render imp false = Ok pair →
  make_prompt bot_prefix state imp true render it ir [] = Error IndexError.
Proof.
  intros Hm Hr Hp. unfold make_prompt.
  rewrite (bool_decide_eq_true_2 _ Hm). simpl andb.
  change (slice_to (-1) (@nil message)) with (@nil message).
  rewrite Hr, bind_Ok.
  destruct (decide (mode state = chat_instruct)); [|done].
  cbv zeta. by rewrite Hp, bind_Ok.
Qed.

End PromptBuilderFurther.


Lemma make_prompt_nothing_to_continue_witness :
  make_prompt (fun p _ => p) (sample_state chat_instruct []) false true
    (chat_renderer_of tag_template (sample_state chat_instruct []))
    tag_template (instruct_renderer_of tag_template) [] = Error IndexError.
Proof.
  apply (make_prompt_nothing_to_continue (fun p _ => p) (sample_state chat_instruct [])
           false (chat_renderer_of tag_template (sample_state chat_instruct []))
           tag_template (instruct_renderer_of tag_template) []
           (py "<|assistant|>", py "</s>")).
  - reflexivity.
  - reflexivity.
  - reflexivity.
Defined.

Section StoppingStringsFurther.

Variable from_string : str -> result template.

(** X6. The first call consumes the extra stopping strings of the state: the
    state it returns holds no such list any more, a second call on that state
    returns the same state and the strings of the first call that come from
    the probes, and every string of the first call is one of those or one of
    the extra strings. *)
Theorem get_stopping_strings_consumes_extras state l state' :
  get_stopping_strings from_string state = Ok (l, state') →
  extra_stopping_strings state' = [] ∧
  ∃ l', get_stopping_strings from_string state' = Ok (l', state') ∧
        (∀ s, s ∈ l' → s ∈ l) ∧
        (∀ s, s ∈ l → s ∈ l' ∨ s ∈ extra_stopping_strings state).
Proof.
  rewrite !get_stopping_strings_eq. intros H.
  destruct (active_renderers from_string state) as [renderers|e] eqn:Ha; [|done].
  rewrite bind_Ok in H.
  destruct (probe_renderers renderers []) as [stopping|e] eqn:Hp; [|done].
  rewrite bind_Ok in H. injection H as <- <-.
  assert (active_renderers from_string
            match stopping_strings state with
            | Some (StopList _) =>
                mkState (mode state) (name1 state) (name2 state) (context state)
                  (custom_system_message state) (chat_template_str state)
                  (instruction_template_str state) (chat_instruct_command state)
                  (history state) None
            | _ => state
            end = Ok renderers) as Ha'.
  { rewrite <- Ha. by destruct (stopping_strings state) as [[?|]|]. }
  split.
  { unfold extra_stopping_strings.
    by destruct (stopping_strings state) as [[?|]|] eqn:E; simpl; rewrite ?E. }
  rewrite Ha', bind_Ok, Hp, bind_Ok.
  eexists. split.
  { do 2 f_equal. by destruct (stopping_strings state) as [[?|]|] eqn:E; simpl; rewrite ?E. }
  assert (extra_stopping_strings
            match stopping_strings state with
            | Some (StopList _) =>
                mkState (mode state) (name1 state) (name2 state) (context state)
                  (custom_system_message state) (chat_template_str state)
                  (instruction_template_str state) (chat_instruct_command state)
                  (history state) None
            | _ => state
            end = []) as ->.
  { unfold extra_stopping_strings.
    by destruct (stopping_strings state) as [[?|]|] eqn:E; simpl; rewrite ?E. }
  split; intros s; rewrite !elem_of_elements, !elem_of_list_to_set, !elem_of_app.
  - intros [?|[]%elem_of_nil]. auto.
  - intros [?|?]; auto.
Qed.

End StoppingStringsFurther.

Section ComposerFurther.
Import Py PyFacts.

Lemma strip_leading_decompose n tok p :
  ∃ i, p = concat (replicate i tok) ++ strip_leading n tok p.
Proof.
  revert p. induction n as [|n IH]; intros p; [by exists 0|].
  simpl. destruct (startswith p tok) eqn:E; [|by exists 0].
  apply startswith_prefix in E as [p' ->].
  rewrite slice_from_len, drop_app_length.
  destruct (IH p') as [i Hi]. exists (S i). simpl.
  by rewrite <- app_assoc, <- Hi.
Qed.

(** X7. [remove_extra_bos] removes whole leading markers and nothing else:
    the prompt is some copies of [<s>], then some copies of
    [<|startoftext|>], then the result, and the result never begins with
    [<|startoftext|>]. *)
Theorem remove_extra_bos_strips_markers_only p :
  (∃ i j, p = concat (replicate i (py "<s>"))
              ++ concat (replicate j (py "<|startoftext|>"))
              ++ remove_extra_bos p) ∧
  startswith (remove_extra_bos p) (py "<|startoftext|>") = false.
Proof.
  split.
  - rewrite remove_extra_bos_eq. cbv zeta.
    destruct (strip_leading_decompose (length p) (py "<s>") p) as [i Hi].
    set (u := strip_leading (length p) (py "<s>") p) in *.
    destruct (strip_leading_decompose (length u) (py "<|startoftext|>") u) as [j Hj].
    exists i, j. etrans; [exact Hi|]. f_equal. exact Hj.
  - rewrite remove_extra_bos_eq. by apply strip_leading_done.
Qed.

Lemma replace_None old new s : find old s = None → replace old new s = s.
Proof.
  intros H. unfold replace. destruct old as [|c old].
  - destruct s; [by rewrite find_nil in H | by rewrite find_cons in H].
  - destruct (length s); simpl; by rewrite ?H.
Qed.

(** X8. A text that holds none of the four placeholders passes through
    [replace_character_names] unchanged, whatever the two names are. *)
Theorem replace_character_names_without_placeholders text name1 name2 :
  contains (py "{{user}}") text = false →
  contains (py "{{char}}") text = false →
  contains (py "<USER>") text = false →
  contains (py "<BOT>") text = false →
  replace_character_names text name1 name2 = text.
Proof.
  intros H1%contains_false H2%contains_false H3%contains_false H4%contains_false.
  unfold replace_character_names. cbv zeta.
  by rewrite (replace_None _ _ _ H1), (replace_None _ _ _ H2),
     (replace_None _ _ _ H3), (replace_None _ _ _ H4).
Qed.

End ComposerFurther.

Lemma get_stopping_strings_consumes_extras_witness :
  extra_stopping_strings (sample_state chat []) = [] ∧
  ∃ l', get_stopping_strings (sample_from_string tag_template tag_template)
          (sample_state chat []) = Ok (l', sample_state chat []) ∧
        (∀ s, s ∈ l' → s ∈ [py "stop"; py "</s><|assistant|>"; py "</s><|user|>"]) ∧
        (∀ s, s ∈ [py "stop"; py "</s><|assistant|>"; py "</s><|user|>"] →
              s ∈ l' ∨ s ∈ extra_stopping_strings
                         (mkState chat (py "You") (py "Bot") [] [] (py "chat")
                            (py "instruct") (py "Continue the chat: <|prompt|>")
                            (mkHistory [] []) (Some (StopList [py "stop"])))).
Proof.
  apply (get_stopping_strings_consumes_extras
           (sample_from_string tag_template tag_template)
           (mkState chat (py "You") (py "Bot") [] [] (py "chat") (py "instruct")
              (py "Continue the chat: <|prompt|>") (mkHistory [] [])
              (Some (StopList [py "stop"])))).
  vm_compute. reflexivity.
Defined.

Lemma replace_character_names_without_placeholders_witness :
  replace_character_names (py "A quiet room.") (py "You") (py "Bot") = py "A quiet room.".
Proof.
  apply (replace_character_names_without_placeholders
           (py "A quiet room.") (py "You") (py "Bot")); reflexivity.
Defined.

(** ** [strip] and its parts *)

Module StripFacts.
Import Py.

Lemma lstrip_by_idem f s : lstrip_by f (lstrip_by f s) = lstrip_by f s.
Proof.
  induction s as [|c s IH]; [done|]. simpl.
  destruct (f c) eqn:E; [done|]. simpl. by rewrite E.
Qed.

Lemma lstrip_by_head f s c t : lstrip_by f s = c :: t → f c = false.
Proof.
  induction s as [|d s IH]; [done|]. simpl.
  destruct (f d) eqn:E; [done|]. by intros [= <- _].
Qed.

Lemma lstrip_by_keep f c s : f c = false → lstrip_by f (c :: s) = c :: s.
Proof. intros H. simpl. by rewrite H. Qed.

Lemma lstrip_by_snoc f s c :
  f c = false → lstrip_by f (s ++ [c]) = lstrip_by f s ++ [c].
Proof.
  intros H. induction s as [|d s IH]; simpl; [by rewrite H|].
  by destruct (f d).
Qed.

Lemma rstrip_by_cons f c s : f c = false → rstrip_by f (c :: s) = c :: rstrip_by f s.
Proof.
  intros H. unfold rstrip_by. simpl rev.
  by rewrite lstrip_by_snoc, rev_app_distr.
Qed.

Lemma rstrip_by_idem f s : rstrip_by f (rstrip_by f s) = rstrip_by f s.
Proof. unfold rstrip_by. by rewrite rev_involutive, lstrip_by_idem. Qed.

(** [s.strip().strip() == s.strip()] *)
Lemma strip_strip s : strip (strip s) = strip s.
Proof.
  unfold strip. destruct (lstrip_by isspace s) as [|c t] eqn:E; [done|].
  apply lstrip_by_head in E.
  rewrite (rstrip_by_cons _ _ _ E), (lstrip_by_keep _ _ _ E).
  by rewrite <- (rstrip_by_cons _ _ _ E), rstrip_by_idem.
Qed.

Lemma strip_nil : strip [] = [].
Proof. done. Qed.

End StripFacts.

Section SequencerFurther.
Import Py StripFacts.

(** The list of lines 90 to 115 in the three parts of [sequencer_spec]. *)
Lemma build_messages_parts user_input state kwargs :
  build_messages user_input state kwargs
  = system_part state
    ++ concat (map turn_messages
                 (internal (default (history state) (kw_history kwargs))))
    ++ trailing_part user_input kwargs.
Proof.
  unfold build_messages. cbv zeta.
  set (hist := internal (default (history state) (kw_history kwargs))).
  match goal with |- context [fold_left _ (reverse hist) ?pre] =>
    set (messages0 := pre)
  end.
  match goal with |- context [fold_left ?f (reverse hist) messages0] =>
    set (body := f)
  end.
  assert (messages0 = system_part state) as Hpre.
  { subst messages0. unfold system_part.
    destruct (mode state); simpl; repeat case_decide; repeat case_bool_decide; done. }
  assert (fold_left body (reverse hist) messages0
          = messages0 ++ concat (map turn_messages hist)) as ->.
  { pose proof (insert_turns body messages0
                  (fun acc turn => insert_turn messages0 acc turn)
                  (reverse hist) []) as Hfold.
    by rewrite reverse_involutive, !app_nil_r in Hfold. }
  rewrite <- Hpre. unfold trailing_part.
  destruct (decide (strip user_input ≠ [])) as [Hu|Hu].
  - rewrite (bool_decide_eq_true_2 _ Hu).
    destruct (impersonate kwargs), (_continue kwargs); simpl;
      first [ rewrite bool_decide_eq_true_2 by done; by rewrite <- app_assoc
            | rewrite bool_decide_eq_false_2 by (by intros (_ & ? & ?));
              by rewrite app_nil_r ].
  - rewrite (bool_decide_eq_false_2 _ Hu). simpl.
    rewrite bool_decide_eq_false_2 by (by intros (? & _)). by rewrite app_nil_r.
Qed.

Lemma turn_messages_spoken turn m : m ∈ turn_messages turn → spoken m.
Proof.
  unfold turn_messages. rewrite elem_of_app.
  intros [H|H]; case_bool_decide; try (by apply elem_of_nil in H);
    apply list_elem_of_singleton in H as ->;
    (split; [done|]); simpl; split; try tauto; apply strip_strip.
Qed.

Lemma trailing_part_spoken user_input kwargs m :
  m ∈ trailing_part user_input kwargs → spoken m.
Proof.
  unfold trailing_part. case_bool_decide; [|by intros ?%elem_of_nil].
  intros ->%list_elem_of_singleton. split; [done|]. simpl.
  split; [tauto | apply strip_strip].
Qed.

Lemma elem_of_concat_map {A B} (f : A -> list B) (l : list A) (x : B) :
  x ∈ concat (map f l) → ∃ y, y ∈ l ∧ x ∈ f y.
Proof.
  induction l as [|y l IH]; simpl; [by intros ?%elem_of_nil|].
  rewrite elem_of_app. intros [H|H].
  - exists y. split; [left | done].
  - destruct (IH H) as (z & ? & ?). exists z. split; [by right | done].
Qed.

(** X9. In the list built before truncation only the first message can be
    a system message, and every other message has a content that is neither
    blank nor surrounded by whitespace. *)
Theorem build_messages_contents user_input state kwargs i m :
  build_messages user_input state kwargs !! i = Some m →
  (role m = system → i = 0) ∧
  (role m ≠ system → content m ≠ [] ∧ strip (content m) = content m).
Proof.
  rewrite build_messages_parts. intros H.
  assert (length (system_part state) ≤ 1 ∧
          ∀ x, x ∈ system_part state → role x = system) as [Hlen Hsys].
  { unfold system_part.
    destruct (mode state); case_bool_decide; simpl; (split; [lia|]);
      intros x Hx; try (by apply elem_of_nil in Hx);
      by apply list_elem_of_singleton in Hx as ->. }
  apply lookup_app_Some in H as [H|[Hi H]].
  - apply lookup_lt_Some in H as Hlt. split; [lia|].
    intros Hr. destruct Hr. apply Hsys. by eapply list_elem_of_lookup_2.
  - assert (spoken m) as (? & ? & ?); [|done].
    apply list_elem_of_lookup_2, elem_of_app in H as [H|H].
    + apply elem_of_concat_map in H as (turn & _ & Hm).
      by eapply turn_messages_spoken.
    + by eapply trailing_part_spoken.
Qed.

End SequencerFurther.

Lemma build_messages_contents_witness :
  (role (Message assistant (py "hello")) = system → 1 = 0) ∧
  (role (Message assistant (py "hello")) ≠ system →
   content (Message assistant (py "hello")) ≠ [] ∧
   Py.strip (content (Message assistant (py "hello")))
   = content (Message assistant (py "hello"))).
Proof.
  apply (build_messages_contents (py " how are you? ")
           (sample_state chat [(py " hi ", py " hello ")])
           (mkKwargs false false false None) 1 (Message assistant (py "hello"))).
  reflexivity.
Defined.

(** * The history edits *)

Module PyMoreFacts.
Import Py PyMore.

Lemma getitem_last_snoc {A} (l : list A) x : getitem (l ++ [x]) (-1) = Ok x.
Proof.
  unfold getitem. change (-1 <? 0)%Z with true. cbv iota.
  rewrite length_app. simpl length.
  destruct (Z.ltb_spec (Z.of_nat (length l + 1) + -1) 0); [lia|].
  replace (Z.to_nat (Z.of_nat (length l + 1) + -1)) with (length l) by lia.
  by rewrite list_lookup_middle.
Qed.

Lemma getitem_last_nil {A} : getitem (@nil A) (-1) = Error IndexError.
Proof. done. Qed.

Lemma pop_last_snoc {A} (l : list A) x : pop_last (l ++ [x]) = Ok (x, l).
Proof. unfold pop_last. by rewrite last_snoc, removelast_last. Qed.

Lemma update_last_snoc {A} (f : A -> A) (l : list A) x :
  update_last f (l ++ [x]) = Ok (l ++ [f x]).
Proof. unfold update_last. by rewrite last_snoc, removelast_last. Qed.

Lemma update_last_nil {A} (f : A -> A) : update_last f [] = Error IndexError.
Proof. done. Qed.

Lemma snoc_or_nil {A} (l : list A) : l = [] ∨ ∃ l0 x, l = l0 ++ [x].
Proof.
  destruct l as [|a l] using rev_ind; [by left | right; eauto].
Qed.

End PyMoreFacts.

Section HistoryEditsFacts.
Import Py PyMore PyMoreFacts.

Variable html_escape : str -> str.
Variable html_unescape : str -> str.
Variable apply_extensions_input : str -> UIState -> str.

Local Ltac run :=
  repeat (progress (rewrite ?bind_Ok, ?getitem_last_snoc, ?pop_last_snoc,
                      ?update_last_snoc;
                    cbn [fst snd internal visible history prompt_state
                         with_history set_reply negb])).

Lemma ltb_0_snoc {A} (l : list A) x : (0 <? length (l ++ [x])) = true.
Proof. apply Nat.ltb_lt. rewrite length_app. simpl. lia. Qed.

(** X10. On a history whose two lists have the same length
    [remove_last_message] never raises and keeps the lengths equal: it either
    leaves the history as it is (no turn, or a last turn whose internal user
    text is the begin marker) and returns the unescaped empty string, or
    removes the last turn of both lists and returns its unescaped visible
    user text. *)
Theorem remove_last_message_parallel h :
  length (internal h) = length (visible h) →
  ∃ text h',
    remove_last_message html_unescape h = Ok (text, h') ∧
    length (internal h') = length (visible h') ∧
    ((h' = h ∧ text = html_unescape [] ∧
      (visible h = [] ∨ ∃ ti, last (internal h) = Some ti ∧ ti.1 = BEGIN_VISIBLE_CHAT))
     ∨ (∃ ti tv, internal h = internal h' ++ [ti] ∧ visible h = visible h' ++ [tv] ∧
                 ti.1 ≠ BEGIN_VISIBLE_CHAT ∧ text = html_unescape tv.1)).
Proof.
  destruct h as [int vis]. simpl. intros Hlen. unfold remove_last_message. simpl.
  destruct (snoc_or_nil vis) as [->|(vis0 & tv & ->)].
  - simpl. eexists _, _. split; [done|]. split; [done|]. left. auto.
  - destruct (snoc_or_nil int) as [->|(int0 & ti & ->)].
    { rewrite length_app in Hlen. simpl in Hlen. lia. }
    rewrite !length_app in *. simpl in *.
    replace (0 <? length vis0 + 1) with true by (symmetry; apply Nat.ltb_lt; lia).
    rewrite getitem_last_snoc, bind_Ok.
    destruct (decide (ti.1 ≠ BEGIN_VISIBLE_CHAT)) as [Hne|He].
    + rewrite (bool_decide_eq_true_2 _ Hne), bind_Ok.
      rewrite !pop_last_snoc, !bind_Ok. simpl.
      eexists _, _. split; [done|]. simpl. split; [lia|]. right. by exists ti, tv.
    + rewrite (bool_decide_eq_false_2 _ He), bind_Ok.
      eexists _, _. split; [done|]. simpl. rewrite !length_app. split; [done|].
      left. split_and!; [done..|]. right. exists ti. rewrite last_snoc.
      split; [done|]. by destruct (decide (ti.1 = BEGIN_VISIBLE_CHAT)).
Qed.

(** X11. [remove_last_message] raises, and then [IndexError], exactly on a
    history that has visible turns but no internal turn. *)
Theorem remove_last_message_raises_iff h e :
  remove_last_message html_unescape h = Error e ↔
  e = IndexError ∧ visible h ≠ [] ∧ internal h = [].
Proof.
  destruct h as [int vis]. unfold remove_last_message. simpl.
  destruct (snoc_or_nil vis) as [->|(vis0 & tv & ->)].
  - simpl. split; [done | by intros (_ & ? & _)].
  - rewrite length_app. simpl.
    replace (0 <? length vis0 + 1) with true by (symmetry; apply Nat.ltb_lt; lia).
    destruct (snoc_or_nil int) as [->|(int0 & ti & ->)].
    + rewrite getitem_last_nil. simpl. split.
      * intros [= <-]. split_and!; [done| |done]. by destruct vis0.
      * by intros (-> & _).
    + rewrite getitem_last_snoc, bind_Ok.
      destruct (bool_decide _); rewrite bind_Ok, ?pop_last_snoc, ?bind_Ok;
        (split; [done|]); intros (_ & _ & ?); by destruct int0.
Qed.

(** X12. Sending a dummy message and removing the last message is a round
    trip on the history, and gives back the escaped and unescaped text, as
    long as the text that the input extensions return is not the begin
    marker. *)
Theorem send_dummy_message_then_remove text state :
  (∀ s, apply_extensions_input text s ≠ BEGIN_VISIBLE_CHAT) →
  remove_last_message html_unescape
    (send_dummy_message html_escape apply_extensions_input text state)
  = Ok (html_unescape (html_escape text), history (prompt_state state)).
Proof.
  intros Hne. unfold send_dummy_message, remove_last_message. cbv zeta. run.
  rewrite ltb_0_snoc. run.
  rewrite bool_decide_eq_true_2 by apply Hne. run.
  by destruct (history (prompt_state state)).
Qed.

(** A dummy message followed by a dummy reply, computed. *)
Lemma dummy_message_then_reply text reply state :
  let h := history (prompt_state state) in
  ∃ s1 s2,
    send_dummy_reply html_escape apply_extensions_input reply
      (with_history state
         (send_dummy_message html_escape apply_extensions_input text state))
    = Ok (mkHistory
            (internal h ++ [(apply_extensions_input text s1,
                             apply_extensions_input reply s2)])
            (visible h ++ [(html_escape text, html_escape reply)])).
Proof.
  cbv zeta. unfold send_dummy_reply, send_dummy_message. cbv zeta. run.
  rewrite ltb_0_snoc. run.
  rewrite bool_decide_eq_true_2 by done. run. eauto.
Qed.

(** X13. A dummy message followed by a dummy reply adds exactly one turn: the
    reply fills the turn that the message opened, in both lists, and no
    exception is raised. *)
Theorem send_dummy_message_then_reply text reply state :
  let h := history (prompt_state state) in
  ∃ s1 s2,
    send_dummy_reply html_escape apply_extensions_input reply
      (with_history state
         (send_dummy_message html_escape apply_extensions_input text state))
    = Ok (mkHistory
            (internal h ++ [(apply_extensions_input text s1,
                             apply_extensions_input reply s2)])
            (visible h ++ [(html_escape text, html_escape reply)])).
Proof. exact (dummy_message_then_reply text reply state). Qed.

(** X14. On a history whose two lists have the same length and are not
    empty, [send_dummy_reply] never raises and keeps the lengths equal; it
    opens a new turn exactly when the last visible reply is not empty, and
    the last visible reply afterwards is the escaped text. Without a visible
    turn it raises [IndexError]. *)
Theorem send_dummy_reply_turns text state :
  let h := history (prompt_state state) in
  (visible h = [] →
   send_dummy_reply html_escape apply_extensions_input text state = Error IndexError) ∧
  (visible h ≠ [] → length (internal h) = length (visible h) →
   ∃ h' tv tv',
     send_dummy_reply html_escape apply_extensions_input text state = Ok h' ∧
     length (internal h') = length (visible h') ∧
     last (visible h) = Some tv ∧
     length (visible h') = length (visible h) + (if decide (tv.2 = []) then 0 else 1) ∧
     last (visible h') = Some tv' ∧ tv'.2 = html_escape text).
Proof.
  cbv zeta. unfold send_dummy_reply. cbv zeta.
  destruct (history (prompt_state state)) as [int vis]. run. split.
  - intros ->. done.
  - intros Hvis Hlen.
    destruct (snoc_or_nil vis) as [->|(vis0 & tv & ->)]; [done|].
    destruct (snoc_or_nil int) as [->|(int0 & ti & ->)].
    { rewrite length_app in Hlen. simpl in Hlen. lia. }
    rewrite ltb_0_snoc. run. rewrite last_snoc.
    rewrite !length_app in Hlen. simpl in Hlen.
    destruct (decide (tv.2 = [])) as [He|Hne].
    + rewrite (bool_decide_eq_true_2 _ He). run.
      eexists _, tv, _. split; [done|]. run.
      rewrite !length_app, last_snoc. simpl.
      split_and!; [lia|done|case_decide; [lia|done]|done..].
    + rewrite (bool_decide_eq_false_2 _ Hne). run.
      eexists _, tv, _. split; [done|]. run.
      rewrite !length_app, last_snoc. simpl.
      split_and!; [lia|done|case_decide; [done|lia]|done..].
Qed.

(** X15. On a history whose two lists have the same length
    [replace_last_reply] never raises; it changes nothing when the text is
    blank, and otherwise at most the reply of the last turn: the lengths, the
    user texts and every earlier turn stay as they were, and the last visible
    reply becomes the escaped text. *)
Theorem replace_last_reply_parallel text state :
  let h := history (prompt_state state) in
  length (internal h) = length (visible h) →
  ∃ h',
    replace_last_reply html_escape apply_extensions_input text state = Ok h' ∧
    (strip text = [] → h' = h) ∧
    (fst <$> internal h') = (fst <$> internal h) ∧
    (fst <$> visible h') = (fst <$> visible h) ∧
    removelast (internal h') = removelast (internal h) ∧
    removelast (visible h') = removelast (visible h) ∧
    (strip text ≠ [] → ∀ tv, last (visible h') = Some tv → tv.2 = html_escape text).
Proof.
  cbv zeta. unfold replace_last_reply. cbv zeta.
  destruct (history (prompt_state state)) as [int vis]. run. intros Hlen.
  destruct (decide (length (strip text) = 0)) as [Hblank|Hblank].
  { eexists. split; [done|]. split_and!; try done.
    intros Hne. by destruct (strip text). }
  assert (strip text ≠ []) as Hne by (by destruct (strip text)).
  destruct (snoc_or_nil vis) as [->|(vis0 & tv & ->)].
  { simpl. eexists. split; [done|]. split_and!; try done. }
  destruct (snoc_or_nil int) as [->|(int0 & ti & ->)].
  { rewrite length_app in Hlen. simpl in Hlen. lia. }
  rewrite ltb_0_snoc. run.
  eexists. split; [done|]. run.
  rewrite !fmap_app, !removelast_last, last_snoc. simpl.
  split_and!; try done. by intros _ tv' [= <-].
Qed.

End HistoryEditsFacts.

Lemma remove_last_message_parallel_witness :
  ∃ text h',
    remove_last_message sample_unescape
      (mkHistory [(py "a < b", py "yes")] [(py "a &lt; b", py "yes")]) = Ok (text, h') ∧
    length (internal h') = length (visible h') ∧
    ((h' = mkHistory [(py "a < b", py "yes")] [(py "a &lt; b", py "yes")] ∧
      text = sample_unescape [] ∧
      (visible (mkHistory [(py "a < b", py "yes")] [(py "a &lt; b", py "yes")]) = [] ∨
       ∃ ti, last (internal (mkHistory [(py "a < b", py "yes")]
                               [(py "a &lt; b", py "yes")])) = Some ti ∧
             ti.1 = BEGIN_VISIBLE_CHAT))
     ∨ (∃ ti tv,
          internal (mkHistory [(py "a < b", py "yes")] [(py "a &lt; b", py "yes")])
          = internal h' ++ [ti] ∧
          visible (mkHistory [(py "a < b", py "yes")] [(py "a &lt; b", py "yes")])
          = visible h' ++ [tv] ∧
          ti.1 ≠ BEGIN_VISIBLE_CHAT ∧ text = sample_unescape tv.1)).
Proof.
  apply (remove_last_message_parallel sample_unescape
           (mkHistory [(py "a < b", py "yes")] [(py "a &lt; b", py "yes")])).
  reflexivity.
Defined.

Lemma send_dummy_message_then_remove_witness :
  remove_last_message sample_unescape
    (send_dummy_message sample_escape sample_input (py "a < b")
       (sample_ui_state chat (mkHistory [] [])))
  = Ok (sample_unescape (sample_escape (py "a < b")), mkHistory [] []).
Proof.
  apply (send_dummy_message_then_remove sample_escape sample_unescape sample_input
           (py "a < b") (sample_ui_state chat (mkHistory [] []))).
  intros s. discriminate.
Defined.

Lemma replace_last_reply_parallel_witness :
  ∃ h',
    replace_last_reply sample_escape sample_input (py "no")
      (sample_ui_state chat (mkHistory [(py "q", py "yes")] [(py "q", py "yes")]))
    = Ok h' ∧
    (Py.strip (py "no") = [] →
     h' = mkHistory [(py "q", py "yes")] [(py "q", py "yes")]) ∧
    (fst <$> internal h') = (fst <$> [(py "q", py "yes")]) ∧
    (fst <$> visible h') = (fst <$> [(py "q", py "yes")]) ∧
    removelast (internal h') = removelast [(py "q", py "yes")] ∧
    removelast (visible h') = removelast [(py "q", py "yes")] ∧
    (Py.strip (py "no") ≠ [] →
     ∀ tv, last (visible h') = Some tv → tv.2 = sample_escape (py "no")).
Proof.
  apply (replace_last_reply_parallel sample_escape sample_input (py "no")
           (sample_ui_state chat (mkHistory [(py "q", py "yes")] [(py "q", py "yes")]))).
  reflexivity.
Defined.

(** * The context of a character card *)

Section CharacterContext.
Import Py PyMore PyFacts StripFacts.

Lemma contains_self s : contains s s = true.
Proof.
  unfold contains. apply bool_decide_eq_true.
  pose proof (startswith_app s []) as E. rewrite app_nil_r in E.
  destruct s; [rewrite find_nil, E | rewrite find_cons, E]; eauto.
Qed.

Lemma contains_nil s : contains [] s = true.
Proof.
  unfold contains. apply bool_decide_eq_true.
  destruct s; [rewrite find_nil | rewrite find_cons];
    rewrite startswith_nil; eauto.
Qed.

Lemma find_self s : find s s = Some 0.
Proof.
  pose proof (startswith_app s []) as E. rewrite app_nil_r in E.
  destruct s; [by rewrite find_nil, E | by rewrite find_cons, E].
Qed.

Lemma replace_scan_nil n old new : old ≠ [] → replace_scan n old new [] = [].
Proof. intros H. destruct n; cbn [replace_scan]; by rewrite ?find_nil_nonempty. Qed.

Lemma replace_self s : replace s [] s = [].
Proof.
  destruct (decide (s = [])) as [->|Hne]; [done|].
  assert (replace s [] s = replace_scan (length s) s [] s) as ->
    by (unfold replace; by destruct s).
  destruct (length s) as [|n] eqn:L; [by destruct s|].
  cbn [replace_scan]. rewrite find_self. cbn [take]. rewrite Nat.add_0_l.
  rewrite drop_all. simpl. by apply replace_scan_nil.
Qed.

Lemma replace_nil_nil s : replace [] [] s = s.
Proof.
  unfold replace. simpl. induction s as [|c s IH]; [done|]. simpl. by rewrite IH.
Qed.

(** Two strings that are equal up to surrounding whitespace are
    reduced to the first one, stripped, and the empty string. *)
Theorem remove_partial_duplicate_strings_same string1 string2 :
  strip string1 = strip string2 →
  remove_partial_duplicate_strings string1 string2 = (strip string1, []).
Proof.
  intros H. unfold remove_partial_duplicate_strings. cbv zeta. rewrite <- H.
  rewrite contains_self, replace_self, strip_nil, contains_nil, replace_nil_nil.
  by rewrite strip_strip.
Qed.

(** X16. What [remove_partial_duplicate_strings] returns is stripped, and
    when neither stripped string occurs in the other the result is the two
    stripped strings. *)
Theorem remove_partial_duplicate_strings_stripped string1 string2 :
  let cleaned := remove_partial_duplicate_strings string1 string2 in
  strip cleaned.1 = cleaned.1 ∧ strip cleaned.2 = cleaned.2 ∧
  (contains (strip string1) (strip string2) = false →
   contains (strip string2) (strip string1) = false →
   cleaned = (strip string1, strip string2)).
Proof.
  cbv zeta. unfold remove_partial_duplicate_strings. cbv zeta.
  split_and!.
  - simpl. by repeat (case_match; rewrite ?strip_strip).
  - simpl. by repeat (case_match; rewrite ?strip_strip).
  - by intros -> ->.
Qed.




Lemma collect_keys_none (data : gmap str str) (keys : list str) (acc : list str) :
  (∀ k, k ∈ keys → data !! k = None ∨ data !! k = Some []) →
  fold_left (fun strings key =>
               match data !! key with
               | Some v => if decide (v ≠ []) then strings ++ [strip v] else strings
               | None => strings
               end) keys acc = acc.
Proof.
  revert acc. induction keys as [|k keys IH]; intros acc H; [done|].
  cbn [fold_left].
  assert (∀ k', k' ∈ keys → data !! k' = None ∨ data !! k' = Some []) as H'
    by (intros; apply H; by right).
  unfold str in *.
  destruct (H k (list_elem_of_here _ _)) as [E|E]; rewrite E; [by apply IH|].
  destruct (decide (@nil ascii ≠ [])); [done | by apply IH].
Qed.

(** X18. The context that [build_context] returns is stripped; it is empty
    when the card gives no text under any of the persona, scenario and
    example-dialogue keys. *)
Theorem build_context_stripped data charName :
  strip (build_context data charName) = build_context data charName ∧
  ((∀ k, k ∈ [py "personality"; py "char_persona"; py "description";
              py "scenario"; py "world_scenario";
              py "mes_example"; py "example_dialogue"] →
         data !! k = None ∨ data !! k = Some []) →
   build_context data charName = []).
Proof.
  split; [apply strip_strip|].
  intros H. unfold build_context, collect_keys. cbv zeta.
  rewrite !collect_keys_none; [done|..];
    intros k Hk; apply H;
    repeat (apply elem_of_cons in Hk as [->|Hk]);
    try (by apply elem_of_nil in Hk); repeat constructor.
Qed.

End CharacterContext.

Lemma remove_partial_duplicate_strings_same_witness :
  remove_partial_duplicate_strings (py " a kind robot") (py "a kind robot ")
  = (Py.strip (py " a kind robot"), []).
Proof.
  apply (remove_partial_duplicate_strings_same (py " a kind robot") (py "a kind robot ")).
  reflexivity.
Defined.

(** * The chat generators *)

Module GenFacts.

Lemma gen_bind_of {Y A B} (r : outcome A) (f : A -> gen Y B) :
  gen_bind (gen_of r) f =
  match r with
  | Return a => f a
  | Raise e => ([], Raise e)
  | OutOfFuel => ([], OutOfFuel)
  end.
Proof. destruct r; unfold gen_bind, gen_of; simpl; try done. by destruct (f a). Qed.

Lemma gen_bind_ret {Y A B} (a : A) (f : A -> gen Y B) : gen_bind (gen_ret a) f = f a.
Proof. unfold gen_bind, gen_ret. simpl. by destruct (f a). Qed.

Lemma gen_bind_yield {Y B} (y : Y) (f : unit -> gen Y B) :
  gen_bind (yield y) f = (y :: (f tt).1, (f tt).2).
Proof. done. Qed.

Lemma gen_bind_yields {Y A B} (P : Y -> Prop) (m : gen Y A) (f : A -> gen Y B) :
  Forall P m.1 →
  (∀ a, m.2 = Return a → Forall P (f a).1) →
  Forall P (gen_bind m f).1.
Proof.
  intros Hm Hf. unfold gen_bind. destruct m.2 eqn:E; simpl; try done.
  apply Forall_app. split; [done | by apply Hf].
Qed.

Lemma gen_bind_returns {Y A B} (m : gen Y A) (f : A -> gen Y B) b :
  (gen_bind m f).2 = Return b → ∃ a, m.2 = Return a ∧ (f a).2 = Return b.
Proof. unfold gen_bind. destruct m.2 eqn:E; simpl; try done. eauto. Qed.

Lemma gen_bind_length {Y A B} (m : gen Y A) (f : A -> gen Y B) a :
  m.2 = Return a → length (gen_bind m f).1 = length m.1 + length (f a).1.
Proof. unfold gen_bind. intros ->. simpl. by rewrite length_app. Qed.

Lemma gen_bind_Return {Y A B} (m : gen Y A) (f : A -> gen Y B) a :
  m.2 = Return a → gen_bind m f = (m.1 ++ (f a).1, (f a).2).
Proof. unfold gen_bind. by intros ->. Qed.

Lemma gen_bind_not_Return {Y A B} (m : gen Y A) (f : A -> gen Y B) :
  (∀ a, m.2 ≠ Return a) → gen_bind m f = (m.1, match m.2 with
                                                 | Raise e => Raise e
                                                 | _ => OutOfFuel
                                                 end).
Proof. unfold gen_bind. intros H. destruct m.2; [by destruct (H a) | done..]. Qed.

End GenFacts.

Section ChatGeneratorsFacts.
Import Py PyMore PyMoreFacts GenFacts.

Variable env : Env.

Local Ltac gen_simpl :=
  repeat (first [rewrite gen_bind_of | rewrite gen_bind_ret | rewrite gen_bind_yield];
          cbn [fst snd lift]).

Local Ltac gen_raised := by split; [constructor | intros ? ?].

(** An invariant of the history that every assignment of the loop keeps
    holds of every history the loop yields and of the one it leaves. *)
Lemma reply_loop_invariant (P : History -> Prop) (R : str -> Prop)
    state c is_stream text vtext lr :
  (∀ out r v', P out → update_last (set_reply r) (visible out) = Ok v' →
     P (mkHistory (internal out) v')) →
  (∀ out l reply vreply i' v', P out → c = true → lr = Some l → R reply →
     update_last (fun _ => (text, l.1 ++ reply)) (internal out) = Ok i' →
     update_last (fun _ => (vtext, l.2 ++ vreply)) (visible out) = Ok v' →
     P (mkHistory i' v')) →
  (∀ out reply vreply i' v', P out → c = false → R reply →
     update_last (fun _ => (text, lstrip (py " ") reply)) (internal out) = Ok i' →
     update_last (fun _ => (vtext, lstrip (py " ") vreply)) (visible out) = Ok v' →
     P (mkHistory i' v')) →
  ∀ replies j out, P out → Forall R replies →
    Forall P (reply_loop env state c is_stream text vtext lr j replies out).1 ∧
    ∀ out' b, (reply_loop env state c is_stream text vtext lr j replies out).2
              = Return (out', b) → P out'.
Proof.
  intros Hstop Hcont Hfresh.
  induction replies as [|reply replies IH]; intros j out HP HR.
  { simpl. split; [constructor | by intros out' b [= <- <-]]. }
  apply Forall_cons in HR as [Hr HR].
  cbn [reply_loop]. rewrite gen_bind_of.
  destruct (if decide (mode (prompt_state state) ∈ [chat; chat_instruct])
            then lift (sub_user env (name1 (prompt_state state)) reply)
            else Return reply) as [vr|e|]; [|gen_raised..].
  destruct (stop_everything env j).
  - rewrite gen_bind_of.
    match goal with |- context [lift ?x] => destruct x as [turn|e] end; cbn [lift]; [|gen_raised].
    rewrite gen_bind_of.
    match goal with |- context [lift ?x] => destruct x as [v'|e] eqn:Hu end; cbn [lift]; [|gen_raised].
    rewrite gen_bind_yield. cbn [fst snd gen_ret].
    split; [repeat constructor | intros out' b [= <- <-]]; eapply Hstop; eauto.
  - match goal with |- context [gen_bind ?m ?f] => 
      assert (Forall P m.1 ∧ ∀ o, m.2 = Return o → P o) as [Hy Ho] end.
    { destruct c.
      - destruct lr as [l|]; [|by split; [constructor|]].
        rewrite gen_bind_of.
        match goal with |- context [lift ?x] => destruct x as [i'|e] eqn:Hi end; cbn [lift];
          [|by split; [constructor|]].
        rewrite gen_bind_of.
        match goal with |- context [lift ?x] => destruct x as [v'|e] eqn:Hv end; cbn [lift];
          [|by split; [constructor|]].
        assert (P (mkHistory i' v')) by (eapply Hcont; eauto).
        destruct is_stream; gen_simpl; cbn [gen_ret fst snd].
        + split; [by repeat constructor | by intros o [= <-]].
        + split; [constructor | by intros o [= <-]].
      - destruct (negb _).
        + rewrite gen_bind_of.
          match goal with |- context [lift ?x] => destruct x as [i'|e] eqn:Hi end; cbn [lift];
            [|by split; [constructor|]].
          rewrite gen_bind_of.
          match goal with |- context [lift ?x] => destruct x as [v'|e] eqn:Hv end; cbn [lift];
            [|by split; [constructor|]].
          assert (P (mkHistory i' v')) by (eapply Hfresh; eauto).
          destruct is_stream; gen_simpl; cbn [gen_ret fst snd].
          * split; [by repeat constructor | by intros o [= <-]].
          * split; [constructor | by intros o [= <-]].
        + split; [constructor | by intros o [= <-]]. }
    split.
    + apply gen_bind_yields; [done|]. intros o Heq. by apply IH; [apply Ho|].
    + intros out' b Hret. apply gen_bind_returns in Hret as (o & Heq & Hret).
      eapply IH; [by apply Ho | done | exact Hret].
Qed.


Lemma slice_to_last_snoc {A} (l : list A) x : slice_to (-1) (l ++ [x]) = l.
Proof.
  unfold slice_to, bound. change (-1 <? 0)%Z with true. cbv iota.
  rewrite length_app. simpl length.
  replace (Z.to_nat (Z.max 0 (Z.of_nat (length l + 1) + -1))) with (length l) by lia.
  by rewrite take_app_length.
Qed.

(** What holds of the loading message and of the prepared history, and is
    kept by the assignments of the loop, holds of every yielded history. *)
Lemma chatbot_wrapper_invariant (P : History -> Prop) (R : str -> Prop)
    text state regenerate c loading_message for_ui stops :
  let st := apply_extensions_state env state in
  let st' := with_prompt_state st stops.2 in
  let prep :=
    prepare_input env text st'
      (apply_extensions_history env (history (prompt_state state)))
      regenerate c loading_message in
  get_stopping_strings (from_string env) (prompt_state st) = Ok stops →
  Forall P prep.1 →
  (∀ text' vtext out lr, prep.2 = Return (text', vtext, out, lr) →
     P out ∧
     (∀ out r v', P out → update_last (set_reply r) (visible out) = Ok v' →
        P (mkHistory (internal out) v')) ∧
     (∀ out l reply vreply i' v', P out → c = true → lr = Some l → R reply →
        update_last (fun _ => (text', l.1 ++ reply)) (internal out) = Ok i' →
        update_last (fun _ => (vtext, l.2 ++ vreply)) (visible out) = Ok v' →
        P (mkHistory i' v')) ∧
     (∀ out reply vreply i' v', P out → c = false → R reply →
        update_last (fun _ => (text', lstrip (py " ") reply)) (internal out) = Ok i' →
        update_last (fun _ => (vtext, lstrip (py " ") vreply)) (visible out) = Ok v' →
        P (mkHistory i' v'))) →
  (∀ prompt, Forall R (generate_reply env prompt st' stops.1 for_ui)) →
  Forall P (chatbot_wrapper env text state regenerate c loading_message for_ui).1.
Proof.
  intros st st' prep Hstops Hprep Hpost HR.
  unfold chatbot_wrapper. fold st. rewrite Hstops. rewrite gen_bind_of. cbn [lift].
  fold st'. fold prep.
  apply gen_bind_yields; [done|].
  intros [[[text' vtext] out] lr] Hret.
  destruct (Hpost _ _ _ _ Hret) as (HP & Hstop & Hcont & Hfresh).
  rewrite gen_bind_of. destruct (model_loaded env); [|constructor].
  rewrite gen_bind_of. destruct (chat_prompt _ _ _ _) as [prompt| |]; [|constructor..].
  destruct (reply_loop_invariant P R st' c (stream st') text' vtext lr Hstop Hcont Hfresh
              (generate_reply env prompt st' stops.1 for_ui) 0 out HP (HR prompt))
    as [Hy Ho].
  apply gen_bind_yields; [done|].
  intros [out' b] Hret'. specialize (Ho _ _ Hret').
  destruct b; [constructor|].
  rewrite gen_bind_of.
  match goal with |- context [lift ?x] => destruct x as [turn|e] end; cbn [lift];
    [|constructor].
  rewrite gen_bind_of.
  match goal with |- context [lift ?x] => destruct x as [v'|e] eqn:Hu end; cbn [lift];
    [|constructor].
  repeat constructor. eapply Hstop; eauto.
Qed.

Lemma chatbot_wrapper_no_stops text state regenerate c loading_message for_ui e :
  get_stopping_strings (from_string env)
    (prompt_state (apply_extensions_state env state)) = Error e →
  (chatbot_wrapper env text state regenerate c loading_message for_ui).1 = [].
Proof.
  intros H. unfold chatbot_wrapper. rewrite H. by rewrite gen_bind_of.
Qed.


Lemma last_turn_closed base u vu :
  (∀ out r v', last_turn base u vu out →
     update_last (set_reply r) (visible out) = Ok v' →
     last_turn base u vu (mkHistory (internal out) v')) ∧
  (∀ out (f g : str) i' v', last_turn base u vu out →
     update_last (fun _ => (u, f)) (internal out) = Ok i' →
     update_last (fun _ => (vu, g)) (visible out) = Ok v' →
     last_turn base u vu (mkHistory i' v')).
Proof.
  split.
  - intros [oi ov] r v' (x & vx & Hi & Hv) Hu. cbn [internal visible] in *. subst.
    rewrite update_last_snoc in Hu. injection Hu as <-.
    exists x, r. by cbn.
  - intros [oi ov] f g i' v' (x & vx & Hi & Hv) Hui Huv. cbn [internal visible] in *.
    subst. rewrite update_last_snoc in Hui, Huv. injection Hui as <-.
    injection Huv as <-. by exists f, g.
Qed.

(** X19. A call of [chatbot_wrapper] for a new message yields only
    histories that are the history at entry, as the [history] extension
    returned it, followed by one turn, with the same user text in all of
    them. *)
Theorem chatbot_wrapper_appends_one_turn text state loading_message for_ui :
  ∃ user visible_user,
    Forall (last_turn (apply_extensions_history env (history (prompt_state state)))
              user visible_user)
      (chatbot_wrapper env text state false false loading_message for_ui).1.
Proof.
  destruct (get_stopping_strings (from_string env)
              (prompt_state (apply_extensions_state env state))) as [stops|e] eqn:Hs.
  2: { exists [], []. by rewrite (chatbot_wrapper_no_stops _ _ _ _ _ _ _ Hs). }
  set (st' := with_prompt_state (apply_extensions_state env state) stops.2).
  set (out0 := apply_extensions_history env (history (prompt_state state))).
  destruct (apply_extensions_chat_input env text (html_escape env text) st')
    as [t vt] eqn:Hci.
  exists (apply_extensions_input env t st'), vt.
  destruct (last_turn_closed out0 (apply_extensions_input env t st') vt) as [Hc1 Hc2].
  apply (chatbot_wrapper_invariant _ (fun _ => True) _ _ _ _ _ _ stops Hs).
  - unfold prepare_input. cbn [orb negb]. fold st' out0. rewrite Hci.
    destruct loading_message; gen_simpl; [|constructor].
    cbn [visible internal]. rewrite getitem_last_snoc. gen_simpl.
    repeat constructor. rewrite slice_to_last_snoc. by eexists _, _.
  - intros text' vtext out lr. unfold prepare_input. cbn [orb negb].
    fold st' out0. rewrite Hci. intros Hret.
    assert (text' = apply_extensions_input env t st' ∧ vtext = vt ∧
            out = mkHistory (internal out0 ++ [(apply_extensions_input env t st', [])])
                            (visible out0 ++ [(vt, [])])) as (-> & -> & ->).
    { destruct loading_message; gen_simpl; revert Hret.
      - cbn [visible internal]. rewrite getitem_last_snoc. gen_simpl.
        by intros [= <- <- <-].
      - gen_simpl. by intros [= <- <- <-]. }
    split; [by eexists _, _|]. split; [done|].
    split; [intros; eapply Hc2; eauto | intros; eapply Hc2; eauto].
  - intros. by apply Forall_true.
Qed.


(** What [prepare_input] returns for a regeneration or a continuation of a
    history that has a last turn. *)
Lemma prepare_input_last_turn text st regenerate c loading_message bi bv u r vu vr :
  regenerate || c = true →
  let out := mkHistory (bi ++ [(u, r)]) (bv ++ [(vu, vr)]) in
  (prepare_input env text st out regenerate c loading_message).2 =
    Return (u, vu, out, if regenerate then None else Some (r, vr)) ∧
  (prepare_input env text st out regenerate c loading_message).1 =
    if loading_message
    then [if regenerate
          then mkHistory (bi ++ [(u, [])]) (bv ++ [(vu, processing_message env)])
          else mkHistory (bi ++ [(u, r)]) (bv ++ [(vu, vr ++ py "...")])]
    else [].
Proof.
  intros Hrc out. subst out. unfold prepare_input. rewrite Hrc. cbn [negb internal visible].
  rewrite !getitem_last_snoc. gen_simpl. rewrite !slice_to_last_snoc.
  destruct regenerate.
  - by destruct loading_message.
  - cbn [orb] in Hrc. rewrite Hrc. gen_simpl.
    by destruct loading_message.
Qed.

(** X20. A regeneration or a continuation yields only histories that are
    the history at entry with its last turn rewritten: the earlier turns and
    the user text of the last one are those of the history that the
    [history] extension returned. *)
Theorem chatbot_wrapper_rewrites_last_turn
    text state regenerate _continue loading_message for_ui bi bv u r vu vr :
  regenerate || _continue = true →
  apply_extensions_history env (history (prompt_state state))
    = mkHistory (bi ++ [(u, r)]) (bv ++ [(vu, vr)]) →
  Forall (last_turn (mkHistory bi bv) u vu)
    (chatbot_wrapper env text state regenerate _continue loading_message for_ui).1.
Proof.
  intros Hrc Hout.
  destruct (get_stopping_strings (from_string env)
              (prompt_state (apply_extensions_state env state))) as [stops|e] eqn:Hs.
  2: { by rewrite (chatbot_wrapper_no_stops _ _ _ _ _ _ _ Hs). }
  destruct (last_turn_closed (mkHistory bi bv) u vu) as [Hc1 Hc2].
  apply (chatbot_wrapper_invariant _ (fun _ => True) _ _ _ _ _ _ stops Hs);
    rewrite ?Hout;
    destruct (prepare_input_last_turn text
                (with_prompt_state (apply_extensions_state env state) stops.2)
                regenerate _continue loading_message bi bv u r vu vr Hrc) as [Hret Hys].
  - rewrite Hys. destruct loading_message; [|constructor].
    repeat constructor. destruct regenerate; by eexists _, _.
  - intros text' vtext out lr. rewrite Hret. intros [= <- <- <- <-].
    split; [by eexists _, _|]. split; [done|].
    split; [intros; eapply Hc2; eauto | intros; eapply Hc2; eauto].
  - intros. by apply Forall_true.
Qed.

Lemma chatbot_wrapper_continue_invariant text state loading_message for_ui bi u r :
  internal (apply_extensions_history env (history (prompt_state state)))
    = bi ++ [(u, r)] →
  Forall (fun y => ∃ x, internal y = bi ++ [(u, r ++ x)] ∧
            (x = [] ∨ ∃ prompt st stopping,
                        x ∈ generate_reply env prompt st stopping for_ui))
    (chatbot_wrapper env text state false true loading_message for_ui).1.
Proof.
  intros Hout.
  destruct (get_stopping_strings (from_string env)
              (prompt_state (apply_extensions_state env state))) as [stops|e] eqn:Hs.
  2: { by rewrite (chatbot_wrapper_no_stops _ _ _ _ _ _ _ Hs). }
  set (st' := with_prompt_state (apply_extensions_state env state) stops.2).
  destruct (apply_extensions_history env (history (prompt_state state)))
    as [oi ov] eqn:Hh. cbn [internal] in Hout. subst oi.
  apply (chatbot_wrapper_invariant _
           (fun x => ∃ prompt st stopping, x ∈ generate_reply env prompt st stopping for_ui)
           _ _ _ _ _ _ stops Hs); rewrite ?Hh; fold st'.
  - destruct (snoc_or_nil ov) as [->|(bv & [vu vr] & ->)].
    + unfold prepare_input. cbn [orb negb internal visible].
      rewrite getitem_last_snoc. gen_simpl. constructor.
    + destruct (prepare_input_last_turn text st' false true loading_message
                  bi bv u r vu vr eq_refl) as [_ ->].
      destruct loading_message; [|constructor]. repeat constructor.
      exists []. cbn [internal]. by rewrite app_nil_r; auto.
  - intros text' vtext out lr.
    destruct (snoc_or_nil ov) as [->|(bv & [vu vr] & ->)].
    { unfold prepare_input. cbn [orb negb internal visible].
      rewrite getitem_last_snoc. by gen_simpl. }
    destruct (prepare_input_last_turn text st' false true loading_message
                bi bv u r vu vr eq_refl) as [-> _].
    intros [= <- <- <- <-].
    split; [exists []; cbn [internal]; by rewrite app_nil_r; auto|].
    split; [by intros [oi ov'] r' v' Hx _|].
    split; [|by intros ? ? ? ? ? ? [=]].
    intros [oi ov'] l reply vreply i' v' (x & Hx & _) _ [= <-] HR Hui _.
    cbn [internal fst] in *. subst oi. rewrite update_last_snoc in Hui.
    injection Hui as <-. exists reply. cbn [internal]. auto.
  - intros prompt. apply Forall_forall. intros x Hx. by exists prompt, st', stops.1.
Qed.

(** X21. A continuation never loses what the reply held: every yielded
    history has the earlier internal turns and the user text unchanged, and
    its last internal reply is the reply at entry, alone or followed by one
    of the replies that [generate_reply] yielded. *)
Theorem chatbot_wrapper_continue_extends text state loading_message for_ui bi u r :
  internal (apply_extensions_history env (history (prompt_state state)))
    = bi ++ [(u, r)] →
  ∀ y, y ∈ (chatbot_wrapper env text state false true loading_message for_ui).1 →
    ∃ x, internal y = bi ++ [(u, r ++ x)] ∧
         (x = [] ∨ ∃ prompt st stopping, x ∈ generate_reply env prompt st stopping for_ui).
Proof.
  intros Hout. apply Forall_forall. by apply chatbot_wrapper_continue_invariant.
Qed.


Local Ltac destruct_lift :=
  match goal with |- context [lift ?x] => destruct x end; cbn [lift].

(** [prepare_input] yields the loading message or nothing, and never more
    than that. *)
Lemma prepare_input_yields text st out regenerate c loading_message :
  let g := prepare_input env text st out regenerate c loading_message in
  length g.1 ≤ (if loading_message then 1 else 0) ∧
  (∃ a, g.2 = Return a ∧ length g.1 = if loading_message then 1 else 0) ∨
  (∃ e, g.2 = Raise e) ∧
  (prepare_input env text st out regenerate c loading_message).1 = [].
Proof.
  cbn zeta. unfold prepare_input.
  assert (∀ (A : Type) (y : History) (a : A),
            let g : gen History A :=
              gen_bind (if loading_message then yield y else gen_ret tt)
                       (fun _ => gen_ret a) in
            length g.1 ≤ (if loading_message then 1 else 0) ∧
            (∃ a, g.2 = Return a ∧ length g.1 = if loading_message then 1 else 0) ∨
            (∃ e, g.2 = Raise e) ∧ g.1 = []) as Hleft.
  { intros A y a. left. destruct loading_message; cbn; eauto. }
  destruct (negb (regenerate || c)) eqn:Hrc.
  - destruct (apply_extensions_chat_input _ _ _ _) as [t vt].
    cbn [visible]. rewrite getitem_last_snoc, gen_bind_of. cbn [lift]. apply Hleft.
  - rewrite gen_bind_of. destruct_lift; [|right; eauto].
    rewrite gen_bind_of. destruct_lift; [|right; eauto].
    destruct regenerate; [|destruct c].
    + apply Hleft.
    + gen_simpl. apply Hleft.
    + done.
Qed.

(** X22. Without a model, [chatbot_wrapper] raises: it yields the loading
    message at most, and does not end normally. *)
Theorem chatbot_wrapper_without_model
    text state regenerate _continue loading_message for_ui :
  model_loaded env = false →
  (∃ e, (chatbot_wrapper env text state regenerate _continue loading_message for_ui).2
        = Raise e) ∧
  length (chatbot_wrapper env text state regenerate _continue loading_message for_ui).1
    ≤ (if loading_message then 1 else 0).
Proof.
  intros Hm. unfold chatbot_wrapper. rewrite gen_bind_of.
  destruct_lift; [|split; [eauto | simpl; lia]].
  match goal with |- context [gen_bind ?m ?f] =>
    pose proof (prepare_input_yields text
                  (with_prompt_state (apply_extensions_state env state) a.2)
                  (apply_extensions_history env (history (prompt_state state)))
                  regenerate _continue loading_message) as Hp;
    cbn zeta in Hp; destruct Hp as [[Hle (p & Hp & Hlen)]|[[e He] Hnil]]
  end.
  - rewrite (gen_bind_Return _ _ _ Hp). destruct p as [[[text' vtext] out] lr].
    rewrite gen_bind_of, Hm. cbn [fst snd]. rewrite app_nil_r. eauto.
  - rewrite gen_bind_not_Return by (intros ?; rewrite He; done).
    rewrite He, Hnil. cbn. split; [eauto | lia].
Qed.


(** Without streaming the loop yields only when it is stopped. *)
Lemma reply_loop_without_stream st c text vtext lr replies :
  ∀ j out out' b,
    (reply_loop env st c false text vtext lr j replies out).2 = Return (out', b) →
    length (reply_loop env st c false text vtext lr j replies out).1
      = if b then 1 else 0.
Proof.
  induction replies as [|reply replies IH]; intros j out out' b.
  { cbn. by intros [= <- <-]. }
  cbn [reply_loop]. rewrite gen_bind_of.
  destruct (if decide (mode (prompt_state st) ∈ [chat; chat_instruct])
            then lift (sub_user env (name1 (prompt_state st)) reply)
            else Return reply) as [vr|e|]; [|done..].
  destruct (stop_everything env j).
  - rewrite gen_bind_of. destruct_lift; [|done].
    rewrite gen_bind_of. destruct_lift; [|done].
    rewrite gen_bind_yield. cbn. by intros [= <- <-].
  - match goal with |- context [gen_bind ?m ?f] =>
      assert (m.1 = [] ∧ (m.2 = OutOfFuel → False)) as [Hy Ho] end.
    { destruct c.
      - destruct lr as [l|]; [|done].
        rewrite gen_bind_of. destruct_lift; [|done].
        rewrite gen_bind_of. by destruct_lift.
      - destruct (negb _); [|done].
        rewrite gen_bind_of. destruct_lift; [|done].
        rewrite gen_bind_of. by destruct_lift. }
    match goal with |- context [gen_bind ?m ?f] => destruct m.2 as [o|e|] eqn:Hm end;
      [|by rewrite gen_bind_not_Return, Hm by (intros ?; rewrite Hm; done)
       |by destruct Ho].
    rewrite (gen_bind_Return _ _ _ Hm), Hy. cbn [fst snd app]. apply IH.
Qed.

(** X23. Without streaming, a call of [chatbot_wrapper] that ends normally
    has yielded one history after the loading message and no more. *)
Theorem chatbot_wrapper_without_stream
    text state regenerate _continue loading_message for_ui :
  stream (apply_extensions_state env state) = false →
  (chatbot_wrapper env text state regenerate _continue loading_message for_ui).2
    = Return tt →
  length (chatbot_wrapper env text state regenerate _continue loading_message for_ui).1
    = (if loading_message then 1 else 0) + 1.
Proof.
  intros Hstream. unfold chatbot_wrapper. rewrite gen_bind_of.
  destruct_lift; [|done].
  match goal with |- context [gen_bind ?m ?f] =>
    pose proof (prepare_input_yields text
                  (with_prompt_state (apply_extensions_state env state) a.2)
                  (apply_extensions_history env (history (prompt_state state)))
                  regenerate _continue loading_message) as Hp;
    cbn zeta in Hp; destruct Hp as [[Hle (p & Hp & Hlen)]|[[e He] Hnil]]
  end.
  2: { by rewrite gen_bind_not_Return, He by (intros ?; rewrite He; done). }
  rewrite (gen_bind_Return _ _ _ Hp). destruct p as [[[text' vtext] out] lr].
  rewrite gen_bind_of. destruct (model_loaded env); [|done].
  rewrite gen_bind_of. destruct (chat_prompt _ _ _ _) as [prompt| |]; [|done..].
  cbn [stream with_prompt_state]. rewrite Hstream.
  match goal with |- context [gen_bind ?m ?f] => destruct m.2 as [[out' b]|e|] eqn:Hm end;
    [|by rewrite gen_bind_not_Return, Hm by (intros ?; rewrite Hm; done)..].
  rewrite (gen_bind_Return _ _ _ Hm). cbn [fst snd].
  rewrite !length_app, Hlen, (reply_loop_without_stream _ _ _ _ _ _ _ _ _ _ Hm).
  destruct b; [cbn; lia|].
  rewrite gen_bind_of. destruct_lift; [|done].
  rewrite gen_bind_of. destruct_lift; [|done].
  cbn. lia.
Qed.


(** X24. With nothing to regenerate or to continue, which is a history
    without an internal turn or one that holds a greeting only,
    [generate_chat_reply] yields the history as it is and ends: no model is
    asked for and nothing is raised. *)
Theorem generate_chat_reply_nothing_to_redo
    text state regenerate _continue loading_message for_ui :
  regenerate || _continue = true →
  internal (history (prompt_state state)) = [] ∨
  (∃ greeting, visible (history (prompt_state state)) = [([], greeting)]) →
  generate_chat_reply env text state regenerate _continue loading_message for_ui
  = ([history (prompt_state state)], Return tt).
Proof.
  intros Hrc Hh. unfold generate_chat_reply. rewrite Hrc.
  destruct (history (prompt_state state)) as [hi hv]. cbn [internal visible] in *.
  destruct Hh as [->|[g ->]].
  - rewrite (bool_decide_eq_true_2 (length [] = 0)) by done.
    destruct hv as [|t [|t' hv]].
    + rewrite bool_decide_eq_false_2 by done. by rewrite gen_bind_ret.
    + rewrite bool_decide_eq_true_2 by done.
      change (getitem [t] 0) with (Ok t). gen_simpl.
      by rewrite orb_true_r.
    + rewrite bool_decide_eq_false_2 by (cbn; lia). by rewrite gen_bind_ret.
  - rewrite bool_decide_eq_true_2 by done.
    change (getitem [([], g)] 0) with (Ok (@nil ascii, g)). gen_simpl.
    done.
Qed.


(** What the wrapper hands on when [start_with] is set: a continuation of a
    history whose last reply is [start_with]. *)
Lemma start_with_preamble_continues text state regenerate text' st' r' c' :
  start_with state ≠ [] →
  start_with_preamble env text state regenerate false = Ok (text', st', r', c') →
  r' = false ∧ c' = true ∧
  ∃ bi bv u vu s,
    history (prompt_state st')
    = mkHistory (bi ++ [(u, apply_extensions_input env (start_with state) s)])
                (bv ++ [(vu, html_escape env (start_with state))]).
Proof.
  intros Hsw. unfold start_with_preamble.
  rewrite bool_decide_eq_false_2 by done. cbn [negb andb].
  assert (∀ text1 state1 reg1,
            start_with state1 = start_with state → reg1 = false →
            (let '(text, state, regenerate) := (text1, state1, reg1) in
             let state0 :=
               with_history state
                 (send_dummy_message (html_escape env) (apply_extensions_input env)
                    text state) in
             send_dummy_reply (html_escape env) (apply_extensions_input env)
               (start_with state0) state0
             ≫= λ h, Ok (text, with_history state0 h, regenerate, true))
            = Ok (text', st', r', c') →
            r' = false ∧ c' = true ∧
            ∃ bi bv u vu s,
              history (prompt_state st')
              = mkHistory (bi ++ [(u, apply_extensions_input env (start_with state) s)])
                          (bv ++ [(vu, html_escape env (start_with state))])) as Hrest.
  { intros text1 state1 reg1 Hsw1 ->. cbv zeta.
    destruct (dummy_message_then_reply (html_escape env) (apply_extensions_input env)
                text1 (start_with state) state1) as (s1 & s2 & Heq).
    cbv zeta in Heq. cbn [start_with with_history]. rewrite Hsw1, Heq, bind_Ok.
    intros [= <- <- <- <-]. do 2 (split; [done|]).
    cbn [history prompt_state with_history]. by eexists _, _, _, _, _. }
  destruct regenerate.
  - destruct (remove_last_message _ _) as [[t h]|e]; [|done].
    rewrite bind_Ok, bind_Ok. by apply Hrest.
  - rewrite bind_Ok. by apply Hrest.
Qed.

(** X25. With [start_with] set, and when no extension edits the history,
    every history that [generate_chat_reply_wrapper] yields for a call that
    is not a continuation ends in a reply that starts with [start_with], as
    the [input] extension returned it. *)
Theorem generate_chat_reply_wrapper_starts_with text state regenerate :
  start_with state ≠ [] →
  (∀ h, apply_extensions_history env h = h) →
  ∀ y, y ∈ (generate_chat_reply_wrapper env text state regenerate false).1 →
    ∃ bi u s x,
      internal y.2 = bi ++ [(u, apply_extensions_input env (start_with state) s ++ x)].
Proof.
  intros Hsw Hid. apply Forall_forall.
  unfold generate_chat_reply_wrapper. rewrite gen_bind_of.
  destruct (character_is_loaded state false) as [[]|e]; cbn [lift negb]; [|constructor..].
  rewrite gen_bind_of.
  destruct (start_with_preamble env text state regenerate false)
    as [[[[text' st'] r'] c']|e] eqn:Hp; cbn [lift]; [|constructor].
  destruct (start_with_preamble_continues _ _ _ _ _ _ _ Hsw Hp)
    as (-> & -> & bi & bv & u & vu & s & Hh).
  cbn [fst]. apply Forall_map. unfold generate_chat_reply. cbn [orb].
  assert (Forall (fun y : History =>
            ∃ bi u s x, internal y
              = bi ++ [(u, apply_extensions_input env (start_with state) s ++ x)])
            [history (prompt_state st')]) as Hguard.
  { repeat constructor. exists bi, u, s, []. by rewrite Hh, app_nil_r. }
  assert (Forall (fun y : History =>
            ∃ bi u s x, internal y
              = bi ++ [(u, apply_extensions_input env (start_with state) s ++ x)])
            (chatbot_wrapper env [] st' false true true true).1) as Hrun.
  { eapply Forall_impl.
    - apply (chatbot_wrapper_continue_invariant [] st' true true bi u
               (apply_extensions_input env (start_with state) s)).
      by rewrite Hid, Hh.
    - intros y (x & Hy & _). by exists bi, u, s, x. }
  apply gen_bind_yields.
  - destruct (bool_decide _); [|constructor].
    rewrite gen_bind_of. destruct_lift; constructor.
  - intros b _. by destruct (b || _).
Qed.


Lemma impersonate_loop_static text static_output replies :
  ∀ j, Forall (fun y => y.2 = static_output)
         (impersonate_loop env text static_output j replies).1.
Proof.
  induction replies as [|reply replies IH]; intros j; [constructor|].
  cbn [impersonate_loop]. rewrite gen_bind_yield. cbn [fst].
  constructor; [done|]. destruct (stop_everything env j); [constructor | apply IH].
Qed.

(** [impersonate_wrapper] shows the chat as it was at entry in every
    yield; without a model it yields the empty text once and ends, where
    [chatbot_wrapper] raises. *)
Theorem impersonate_wrapper_static text state :
  let s := prompt_state state in
  let static_output :=
    chat_html_wrapper env (history s) (name1 s) (name2 s) (mode s)
      (chat_style state) (character_menu state) in
  Forall (fun y => y.2 = static_output) (impersonate_wrapper env text state).1 ∧
  (model_loaded env = false →
   impersonate_wrapper env text state = ([([], static_output)], Return tt)).
Proof.
  cbv zeta. unfold impersonate_wrapper. split.
  - destruct (model_loaded env); cbn [negb]; [|by repeat constructor].
    rewrite gen_bind_of. destruct (chat_prompt_of _); [|constructor..].
    rewrite gen_bind_of. destruct_lift; [|constructor].
    rewrite gen_bind_yield. cbn [fst]. constructor; [done|].
    apply impersonate_loop_static.
  - by intros ->.
Qed.



Lemma chat_prompt_ends text state kwargs :
  chat_prompt env text state kwargs ≠ OutOfFuel.
Proof.
  unfold chat_prompt. destruct (apply_extensions_custom_prompt _ _ _ _); [done|].
  destruct (generate_chat_prompt_ends (from_string env) (apply_extensions_bot_prefix env)
              (get_encoded_length env) (get_max_prompt_length env)
              text (prompt_state state) kwargs) as [r ->].
  by destruct r as [[]|].
Qed.

(** X26. A call with both [regenerate] and [_continue] set raises whenever
    [generate_reply] yields something and the first reply is not stopped:
    the loop reads [last_reply], which only the continuation branch
    assigns. *)
Theorem chatbot_wrapper_regenerate_and_continue text state loading_message for_ui :
  (∀ prompt st stopping, generate_reply env prompt st stopping for_ui ≠ []) →
  stop_everything env 0 = false →
  ∃ e, (chatbot_wrapper env text state true true loading_message for_ui).2 = Raise e.
Proof.
  intros Hreplies Hstop. unfold chatbot_wrapper. rewrite gen_bind_of.
  destruct_lift; [|by eauto].
  unfold prepare_input. cbn [orb negb].
  rewrite gen_bind_of. destruct_lift; [|by gen_simpl; eauto].
  rewrite gen_bind_of. destruct_lift; [|by gen_simpl; eauto].
  assert (∀ (y : History) (p : str * str * History * option (str * str)),
            gen_bind (if loading_message then yield y else gen_ret tt)
                     (fun _ => gen_ret p)
            = ((if loading_message then [y] else []), Return p)) as Hy.
  { intros y p. by destruct loading_message. }
  rewrite Hy. unfold gen_bind at 1. cbn [fst snd].
  rewrite gen_bind_of. destruct (model_loaded env); [|by eauto].
  rewrite gen_bind_of.
  match goal with |- context [chat_prompt ?e ?t ?s ?k] =>
    pose proof (chat_prompt_ends t s k) as Hends;
    destruct (chat_prompt e t s k) as [prompt|e'|]; [|by eauto|done] end.
  match goal with |- context [reply_loop _ _ _ _ _ _ _ _ ?l _] =>
    pose proof (Hreplies prompt
                  (with_prompt_state (apply_extensions_state env state) a.2) a.1) as Hne;
    destruct l as [|reply replies]; [done|] end.
  cbn [reply_loop]. rewrite Hstop. rewrite gen_bind_of.
  destruct (if decide _ then _ else _) eqn:Hsub; [|by eauto|].
  - rewrite !gen_bind_of. eauto.
  - by destruct (decide _); [destruct (sub_user _ _ _)|].
Qed.

End ChatGeneratorsFacts.

Lemma chatbot_wrapper_rewrites_last_turn_witness :
  Forall (last_turn (mkHistory [] []) (py "hi") (py "hi"))
    (chatbot_wrapper (sample_env true [py " Hello"; py " Hello there"]) []
       (sample_ui_state chat (mkHistory [(py "hi", py "hey")] [(py "hi", py "hey")]))
       true false true false).1.
Proof.
  apply (chatbot_wrapper_rewrites_last_turn
           (sample_env true [py " Hello"; py " Hello there"]) []
           (sample_ui_state chat (mkHistory [(py "hi", py "hey")] [(py "hi", py "hey")]))
           true false true false [] [] (py "hi") (py "hey") (py "hi") (py "hey"));
    reflexivity.
Defined.

Lemma chatbot_wrapper_continue_extends_witness :
  internal (mkHistory [(py "hi", py "hey")] [(py "hi", py "hey")])
    = [] ++ [(py "hi", py "hey")] ∧
  ∀ y, y ∈ (chatbot_wrapper (sample_env true [py " you"; py " you there"]) []
              (sample_ui_state chat (mkHistory [(py "hi", py "hey")] [(py "hi", py "hey")]))
              false true true false).1 →
    ∃ x, internal y = [] ++ [(py "hi", py "hey" ++ x)] ∧
         (x = [] ∨ ∃ prompt st stopping,
                     x ∈ generate_reply (sample_env true [py " you"; py " you there"])
                           prompt st stopping false).
Proof.
  split; [reflexivity|].
  apply (chatbot_wrapper_continue_extends
           (sample_env true [py " you"; py " you there"]) []
           (sample_ui_state chat (mkHistory [(py "hi", py "hey")] [(py "hi", py "hey")]))
           true false [] (py "hi") (py "hey")).
  reflexivity.
Defined.

Lemma chatbot_wrapper_without_model_witness :
  (∃ e, (chatbot_wrapper (sample_env false []) (py "hi")
           (sample_ui_state chat (mkHistory [] [])) false false true false).2 = Raise e) ∧
  length (chatbot_wrapper (sample_env false []) (py "hi")
            (sample_ui_state chat (mkHistory [] [])) false false true false).1
    ≤ (if true then 1 else 0).
Proof.
  apply (chatbot_wrapper_without_model (sample_env false []) (py "hi")
           (sample_ui_state chat (mkHistory [] [])) false false true false).
  reflexivity.
Defined.

Lemma chatbot_wrapper_without_stream_witness :
  length (chatbot_wrapper (sample_env true [py " Hello"; py " Hello there"]) (py "hi")
            (sample_ui_state chat (mkHistory [] [])) false false true false).1
    = (if true then 1 else 0) + 1.
Proof.
  apply (chatbot_wrapper_without_stream
           (sample_env true [py " Hello"; py " Hello there"]) (py "hi")
           (sample_ui_state chat (mkHistory [] [])) false false true false).
  - reflexivity.
  - vm_compute. reflexivity.
Defined.

Lemma generate_chat_reply_nothing_to_redo_witness :
  generate_chat_reply (sample_env false []) (py "again")
    (sample_ui_state chat (mkHistory [(BEGIN_VISIBLE_CHAT, py "Hello!")] [([], py "Hello!")]))
    true false true false
  = ([mkHistory [(BEGIN_VISIBLE_CHAT, py "Hello!")] [([], py "Hello!")]], Return tt).
Proof.
  apply (generate_chat_reply_nothing_to_redo (sample_env false []) (py "again")
           (sample_ui_state chat
              (mkHistory [(BEGIN_VISIBLE_CHAT, py "Hello!")] [([], py "Hello!")]))
           true false true false).
  - reflexivity.
  - right. exists (py "Hello!"). reflexivity.
Defined.

Lemma generate_chat_reply_wrapper_starts_with_witness :
  start_with (sample_start_state chat (mkHistory [] []) (py "Sure")) ≠ [] ∧
  ∀ y, y ∈ (generate_chat_reply_wrapper (sample_env true [py ", I can"]) (py "hi")
              (sample_start_state chat (mkHistory [] []) (py "Sure")) false false).1 →
    ∃ bi u s x,
      internal y.2
      = bi ++ [(u, apply_extensions_input (sample_env true [py ", I can"])
                     (start_with (sample_start_state chat (mkHistory [] []) (py "Sure"))) s
                   ++ x)].
Proof.
  split; [done|].
  apply (generate_chat_reply_wrapper_starts_with (sample_env true [py ", I can"]) (py "hi")
           (sample_start_state chat (mkHistory [] []) (py "Sure")) false).
  - done.
  - reflexivity.
Defined.

Lemma chatbot_wrapper_regenerate_and_continue_witness :
  ∃ e,
  (chatbot_wrapper (sample_env true [py " you"]) []
     (sample_ui_state chat (mkHistory [(py "hi", py "hey")] [(py "hi", py "hey")]))
     true true true false).2
  = Raise e.
Proof.
  apply (chatbot_wrapper_regenerate_and_continue (sample_env true [py " you"]) []
           (sample_ui_state chat (mkHistory [(py "hi", py "hey")] [(py "hi", py "hey")]))
           true false).
  - intros prompt st stopping. discriminate.
  - reflexivity.
Defined.

(** * The choice of a llama-cpp-python build *)

Module LlamaCppFacts.
Import LlamaCpp.

Lemma head_filter_cons {A} (P : A -> Prop) `{∀ x, Decision (P x)} x l :
  head (filter P (x :: l)) = if decide (P x) then Some x else head (filter P l).
Proof. rewrite filter_cons. by destruct (decide (P x)). Qed.

(** The patch ends normally or with [AttributeError]; after a normal end the
    class is there and marked as patched, and a second patch changes
    nothing. *)
Lemma monkey_patch_ends lib :
  (monkey_patch_llama_cpp_python lib).1 = Return tt ∨
  ∃ a, (monkey_patch_llama_cpp_python lib).1 = Raise (AttributeError a).
Proof.
  destruct lib as [[e g o []]|]; cbn; eauto.
  destruct g; cbn; eauto.
Qed.

Lemma monkey_patch_returns lib u cls :
  monkey_patch_llama_cpp_python lib = (Return u, cls) →
  ∃ cls', cls = Some cls' ∧ _is_patched cls' = true.
Proof.
  destruct lib as [[e g o []]|]; cbn; [intros [= <-]; eauto| |done].
  destruct g; cbn; [|done]. intros [= <-]. eauto.
Qed.

Lemma monkey_patch_patched cls :
  _is_patched cls = true →
  monkey_patch_llama_cpp_python (Some cls) = (Return tt, Some cls).
Proof. unfold monkey_patch_llama_cpp_python. by intros ->. Qed.

(** Evaluation of a call once the flags and the lookups of the three modules
    are known. *)
Local Ltac evaluate :=
  repeat first
    [ progress unfold mbind, M_bind, mret, M_ret, check_loaded, try_import, patch,
                      get_imported_module
    | progress cbn [imported_module installed andb negb fst snd]
    | match goal with H : _ !! _ = _ |- _ => rewrite H end
    | match goal with H : truthy _ = true |- _ => rewrite H end
    | rewrite (bool_decide_eq_true_2 (_ ≠ _)) by congruence
    | match goal with
      | |- context [if ?b then _ else _] =>
          lazymatch b with
          | true => fail
          | false => fail
          | context [@lookup] => fail
          | context [@decide] => fail
          | _ =>
              let b' := eval vm_compute in b in
              match b' with
              | true => change b with true
              | false => change b with false
              end
          end
      end ].

Lemma llama_cpp_lib_fresh cpu tensorcores w :
  imported_module w = None →
  llama_cpp_lib cpu tensorcores w =
  match head (filter (fun name => is_Some (installed w !! name))
                     (candidates cpu tensorcores)) with
  | Some name =>
      let '(r, cls) := monkey_patch_llama_cpp_python (mjoin (installed w !! name)) in
      (_ ← r; Return (Some name),
       mkWorld (Some name) (alter (fun _ => cls) name (installed w)))
  | None => (Return None, w)
  end.
Proof.
  intros Hnone. unfold llama_cpp_lib, candidates.
  destruct w as [im inst]. cbn [imported_module installed] in *. subst im.
  destruct (inst !! py "llama_cpp") as [c1|] eqn:H1;
  destruct (inst !! py "llama_cpp_cuda_tensorcores") as [c2|] eqn:H2;
  destruct (inst !! py "llama_cpp_cuda") as [c3|] eqn:H3;
  destruct cpu, tensorcores; cbn [app];
  rewrite ?head_filter_cons, ?filter_nil, ?H1, ?H2, ?H3;
  repeat (rewrite decide_True by eauto) || (rewrite decide_False by (by intros [? [=]]));
  cbn [head]; evaluate;
  try match goal with
      | |- context [monkey_patch_llama_cpp_python ?m] =>
          destruct (monkey_patch_llama_cpp_python m) as [[] ?]
      end;
  reflexivity.
Qed.

Lemma monkey_patch_returns_iff lib :
  (monkey_patch_llama_cpp_python lib).1 = Return tt ↔
  ∃ cls, lib = Some cls ∧ (_is_patched cls = true ∨ is_Some (generate cls)).
Proof.
  destruct lib as [[e g o p]|]; cbn.
  - destruct p; cbn.
    + split; [eauto|done].
    + destruct g; cbn.
      * split; [eauto|done].
      * split; [done|]. intros (cls & [= <-] & [|[]]); done.
  - split; [done|]. by intros (? & ? & _).
Qed.

(** X27. A first call, with no module imported yet, takes the first module
    that can be imported, in the order [llama_cpp] under [--cpu],
    [llama_cpp_cuda_tensorcores] under [--tensorcores], [llama_cpp] without
    [--cpu], [llama_cpp_cuda]; it records the module in [imported_module]
    and then patches its class. It returns the module when the patch ends
    normally, which is when the module has a class [Llama] that is patched
    already or has a [generate]; otherwise it raises [AttributeError], with
    [imported_module] set already. When no module can be imported it
    returns [None] and changes nothing. *)
Theorem llama_cpp_lib_first_call cpu tensorcores w :
  imported_module w = None →
  match head (filter (fun name => is_Some (installed w !! name))
                     (candidates cpu tensorcores)) with
  | Some name =>
      ∃ r cls,
        monkey_patch_llama_cpp_python (mjoin (installed w !! name)) = (r, cls) ∧
        llama_cpp_lib cpu tensorcores w
        = (_ ← r; Return (Some name),
           mkWorld (Some name) (alter (fun _ => cls) name (installed w))) ∧
        (r = Return tt ∨ ∃ a, r = Raise (AttributeError a)) ∧
        (r = Return tt ↔
         ∃ c, installed w !! name = Some (Some c) ∧
              (_is_patched c = true ∨ is_Some (generate c)))
  | None => llama_cpp_lib cpu tensorcores w = (Return None, w)
  end.
Proof.
  intros Hnone. rewrite (llama_cpp_lib_fresh _ _ _ Hnone).
  destruct (head _) as [name|]; [|done].
  pose proof (monkey_patch_ends (mjoin (installed w !! name))) as Hends.
  pose proof (monkey_patch_returns_iff (mjoin (installed w !! name))) as Hiff.
  destruct (monkey_patch_llama_cpp_python _) as [r cls]. cbn [fst] in *.
  exists r, cls. split_and!; [done..|].
  rewrite Hiff. split.
  - intros (c & Hc & ?). exists c. split; [|done].
    destruct (installed w !! name) as [[]|]; by simplify_eq/=.
  - intros (c & -> & ?). by exists c.
Qed.

(** Evaluation that looks a module up when the call comes to it. *)
Local Ltac lookup_next :=
  match goal with
  | |- context [@lookup _ _ _ _ ?k ?inst] =>
      is_var inst; let H := fresh "Hl" in destruct (inst !! k) eqn:H
  end.

Local Ltac run := repeat (evaluate; try lookup_next).

(** X28. Once [imported_module] holds a module, a call never switches to
    another one, whatever the flags and the modules that can be imported:
    it returns that module or [None], or it raises [Exception] or
    [AttributeError]; [imported_module] stays as it was, and so does every
    other module. *)
Theorem llama_cpp_lib_keeps_variant cpu tensorcores w loaded :
  imported_module w = Some loaded →
  loaded ≠ [] →
  ∃ r w', llama_cpp_lib cpu tensorcores w = (r, w') ∧
          imported_module w' = Some loaded ∧
          (∀ name, name ≠ loaded → installed w' !! name = installed w !! name) ∧
          (r = Return (Some loaded) ∨ r = Return None ∨
           (∃ m, r = Raise (Exception m)) ∨ ∃ a, r = Raise (AttributeError a)).
Proof.
  intros Hloaded Hne. unfold llama_cpp_lib.
  assert (truthy loaded = true) as Ht.
  { unfold truthy. by rewrite bool_decide_eq_false_2. }
  destruct w as [im inst]. cbn [imported_module installed] in *. subst im.
  destruct (decide (loaded = py "llama_cpp")) as [->|N1];
    [|destruct (decide (loaded = py "llama_cpp_cuda_tensorcores")) as [->|N2];
      [|destruct (decide (loaded = py "llama_cpp_cuda")) as [->|N3]]];
  destruct cpu, tensorcores; run;
  try match goal with
      | |- context [monkey_patch_llama_cpp_python ?m] =>
          let Hends := fresh in
          pose proof (monkey_patch_ends m) as Hends;
          destruct (monkey_patch_llama_cpp_python m) as [r cls];
          cbn [fst] in Hends; destruct Hends as [->|[a ->]]
      end;
  (eexists _, _; split; [reflexivity|]); cbn [imported_module installed];
  (split; [reflexivity|]); (split; [by intros; rewrite ?lookup_alter_ne|]); eauto.
Qed.

Local Ltac evaluate_again :=
  repeat first
    [ progress evaluate
    | rewrite lookup_alter
    | rewrite decide_True by reflexivity
    | rewrite decide_False by (let H := fresh in intros H; vm_compute in H; discriminate H)
    | progress cbn [fmap option_fmap option_map mjoin option_join]
    | rewrite monkey_patch_patched by done
    | rewrite alter_alter_eq
    | lookup_next ].

(** X29. After a first call has returned a module, a second call with the
    same flags returns it again and changes nothing when the module is the
    first choice of the flags, or when no flag is set; in every other case,
    which is a first call that fell back to a later choice, the second call
    raises [Exception]. *)
Theorem llama_cpp_lib_second_call cpu tensorcores w lib w1 :
  imported_module w = None →
  llama_cpp_lib cpu tensorcores w = (Return (Some lib), w1) →
  if bool_decide (head (candidates cpu tensorcores) = Some lib)
     || negb cpu && negb tensorcores
  then llama_cpp_lib cpu tensorcores w1 = (Return (Some lib), w1)
  else ∃ m, llama_cpp_lib cpu tensorcores w1 = (Raise (Exception m), w1).
Proof.
  intros Hnone. rewrite (llama_cpp_lib_fresh _ _ _ Hnone). unfold candidates.
  destruct w as [im inst]. cbn [imported_module installed] in *. subst im.
  destruct (inst !! py "llama_cpp") as [c1|] eqn:H1;
  destruct (inst !! py "llama_cpp_cuda_tensorcores") as [c2|] eqn:H2;
  destruct (inst !! py "llama_cpp_cuda") as [c3|] eqn:H3;
  destruct cpu, tensorcores; cbn [app];
  rewrite ?head_filter_cons, ?filter_nil, ?H1, ?H2, ?H3;
  repeat (rewrite decide_True by eauto) || (rewrite decide_False by (by intros [? [=]]));
  cbn [head mjoin option_join]; try done;
  (match goal with
   | |- context [monkey_patch_llama_cpp_python ?m] =>
       let Hp := fresh "Hp" in
       destruct (monkey_patch_llama_cpp_python m) as [[[]| |] cls] eqn:Hp;
       unfold mbind, outcome_bind;
       try done;
       apply monkey_patch_returns in Hp as (cls' & -> & Hp)
   end);
  (intros Heq;
   match type of Heq with
   | (Return (Some ?n), ?W) = _ =>
       assert (lib = n ∧ w1 = W) as [-> ->] by (split; congruence)
   end; clear Heq);
  unfold llama_cpp_lib; evaluate_again; eauto.
Qed.

End LlamaCppFacts.

Lemma llama_cpp_lib_first_call_witness :
  match head (filter (fun name =>
                        is_Some (LlamaCpp.installed
                                   (sample_world None [py "llama_cpp_cuda"]) !! name))
                     (LlamaCpp.candidates true false)) with
  | Some name =>
      ∃ r cls,
        LlamaCpp.monkey_patch_llama_cpp_python
          (mjoin (LlamaCpp.installed (sample_world None [py "llama_cpp_cuda"]) !! name))
        = (r, cls) ∧
        LlamaCpp.llama_cpp_lib true false (sample_world None [py "llama_cpp_cuda"])
        = (_ ← r; Return (Some name),
           LlamaCpp.mkWorld (Some name)
             (alter (fun _ => cls) name
                (LlamaCpp.installed (sample_world None [py "llama_cpp_cuda"])))) ∧
        (r = Return tt ∨ ∃ a, r = Raise (AttributeError a)) ∧
        (r = Return tt ↔
         ∃ c, LlamaCpp.installed (sample_world None [py "llama_cpp_cuda"]) !! name
              = Some (Some c) ∧
              (LlamaCpp._is_patched c = true ∨ is_Some (LlamaCpp.generate c)))
  | None =>
      LlamaCpp.llama_cpp_lib true false (sample_world None [py "llama_cpp_cuda"])
      = (Return None, sample_world None [py "llama_cpp_cuda"])
  end.
Proof.
  apply (LlamaCppFacts.llama_cpp_lib_first_call true false
           (sample_world None [py "llama_cpp_cuda"])).
  reflexivity.
Defined.

Lemma llama_cpp_lib_keeps_variant_witness :
  ∃ r w',
    LlamaCpp.llama_cpp_lib true false
      (sample_world (Some (py "llama_cpp_cuda")) [py "llama_cpp"; py "llama_cpp_cuda"])
    = (r, w') ∧
    LlamaCpp.imported_module w' = Some (py "llama_cpp_cuda") ∧
    (∀ name, name ≠ py "llama_cpp_cuda" →
       LlamaCpp.installed w' !! name
       = LlamaCpp.installed
           (sample_world (Some (py "llama_cpp_cuda"))
              [py "llama_cpp"; py "llama_cpp_cuda"]) !! name) ∧
    (r = Return (Some (py "llama_cpp_cuda")) ∨ r = Return None ∨
     (∃ m, r = Raise (Exception m)) ∨ ∃ a, r = Raise (AttributeError a)).
Proof.
  apply (LlamaCppFacts.llama_cpp_lib_keeps_variant true false
           (sample_world (Some (py "llama_cpp_cuda")) [py "llama_cpp"; py "llama_cpp_cuda"])
           (py "llama_cpp_cuda")).
  - reflexivity.
  - discriminate.
Defined.

Lemma llama_cpp_lib_second_call_witness :
  if bool_decide (head (LlamaCpp.candidates true false) = Some (py "llama_cpp_cuda"))
     || negb true && negb false
  then LlamaCpp.llama_cpp_lib true false
         (LlamaCpp.llama_cpp_lib true false (sample_world None [py "llama_cpp_cuda"])).2
       = (Return (Some (py "llama_cpp_cuda")),
          (LlamaCpp.llama_cpp_lib true false (sample_world None [py "llama_cpp_cuda"])).2)
  else ∃ m,
         LlamaCpp.llama_cpp_lib true false
           (LlamaCpp.llama_cpp_lib true false (sample_world None [py "llama_cpp_cuda"])).2
         = (Raise (Exception m),
            (LlamaCpp.llama_cpp_lib true false (sample_world None [py "llama_cpp_cuda"])).2).
Proof.
  apply (LlamaCppFacts.llama_cpp_lib_second_call true false
           (sample_world None [py "llama_cpp_cuda"]) (py "llama_cpp_cuda")).
  - reflexivity.
  - vm_compute. reflexivity.
Defined.

(** A module that can be imported but has no class [Llama]: the call raises,
    and the module is recorded all the same. *)
Example llama_cpp_lib_without_class :
  let w := LlamaCpp.mkWorld None {[ py "llama_cpp" := None ]} in
  LlamaCpp.llama_cpp_lib true false w
  = (Raise (AttributeError (py "Llama")),
     LlamaCpp.mkWorld (Some (py "llama_cpp")) {[ py "llama_cpp" := None ]}).
Proof. vm_compute. reflexivity. Qed.

(** * The text-to-speech extension *)

Section CoquiTTSFacts.

Variable chat_html_wrapper : list (str * str) -> str -> str -> str -> str.

Lemma remove_tts_loop_spec entries : ∀ done todo,
  remove_tts_loop (length done) entries (done ++ todo)
  = ((if decide (length entries ≤ length todo) then Ok tt else Error IndexError),
     done ++ zip_with (fun entry turn => (turn.1, entry.2)) entries todo
          ++ drop (length entries) todo).
Proof.
  induction entries as [|entry entries IH]; intros done todo.
  { cbn. by rewrite decide_True by lia. }
  cbn [remove_tts_loop]. unfold PyMore.update_at.
  destruct todo as [|turn todo].
  - rewrite decide_False by (cbn; lia). cbn [zip_with drop app].
    rewrite !app_nil_r. by rewrite lookup_ge_None_2 by lia.
  - rewrite list_lookup_middle by done.
    replace (<[length done := (turn.1, entry.2)]> (done ++ turn :: todo))
      with ((done ++ [(turn.1, entry.2)]) ++ todo).
    2: { rewrite <- (Nat.add_0_r (length done)), insert_app_r. cbn.
         by rewrite <- app_assoc. }
    replace (S (length done)) with (length (done ++ [(turn.1, entry.2)]))
      by (rewrite length_app; cbn; lia).
    rewrite IH. cbn [length zip_with drop]. rewrite <- !app_assoc. cbn [app].
    f_equal. destruct (decide (length entries ≤ length todo));
      [by rewrite decide_True by lia | by rewrite decide_False by lia].
Qed.

(** X30. [remove_tts_from_history] gives every visible turn that has an
    internal counterpart the internal reply and keeps its visible user text;
    later visible turns stay as they are. It raises [IndexError] exactly
    when the visible list is the shorter one, and has by then rewritten all
    of it. *)
Theorem remove_tts_from_history_spec history name1 name2 mode :
  let visible' :=
    zip_with (fun entry turn => (turn.1, entry.2)) (internal history) (visible history)
    ++ drop (length (internal history)) (visible history) in
  remove_tts_from_history chat_html_wrapper history name1 name2 mode
  = ((if decide (length (internal history) ≤ length (visible history))
      then Ok (chat_html_wrapper visible' name1 name2 mode)
      else Error IndexError),
     mkHistory (internal history) visible').
Proof.
  cbv zeta. unfold remove_tts_from_history.
  pose proof (remove_tts_loop_spec (internal history) [] (visible history)) as H.
  cbn [app length] in H. rewrite H. by destruct (decide _).
Qed.

End CoquiTTSFacts.
